(** * The request scheduler of the API client

    A shallow embedding of [src/api/index.mjs]: the class [API] with its
    queue, the scheduler loop ([worker]), the transport invoker
    ([callMethod]) and the recovery engine ([handleError]).

    JavaScript objects live in heaps indexed by position, so that the same
    [Request] object can be referenced from the queue, from a pending
    continuation and from a closure at once.  An [async] function is cut at
    its [await]s: the part before the first [await] is one state
    transformer, and each resumption is another one, started by the event
    that settles the awaited promise. *)

From Stdlib Require Import ZArith QArith Qround String.
From stdpp Require Import base gmap list strings.

Close Scope Q_scope.

(** ** Values exchanged with the server *)

#[local] Unset Elimination Schemes.
Inductive Json :=
| JNull
| JBool (b : bool)
| JNum (n : Z)
| JStr (s : string)
| JArr (items : list Json)
| JObj (fields : list (string * Json)).
#[local] Set Elimination Schemes.

(** The fields of an [APIError] that the scheduler reads. *)
Record APIError := mkAPIError {
  code : Z;
  message : string;
  redirectUri : string;
  captchaSid : string;
  captchaImg : string
}.

(** Everything that is thrown or used as a rejection reason. *)
Inductive Error :=
| VKError (msg : string)
| TypeError (msg : string)
| FetchError (msg : string)          (* thrown by fetch or response.json() *)
| ApiError (e : APIError)            (* new APIError(response.error) *)
| KeyError (msg : string)            (* an Error handed to the captcha retry *)
| VerificationError (msg : string).  (* thrown by verification.run(...) *)

Record ExecuteError := mkExecuteError { execute_error : Json }.

(** The parsed body of a reply: a JSON object with the optional members
    [error], [response] and [execute_errors]; [resp_execute_errors] is
    [None] when the member is absent or falsy. *)
Record Response := mkResponse {
  resp_error : option APIError;
  resp_response : option Json;
  resp_execute_errors : option (list Json)
}.

Inductive Value :=
| VUndefined
| VPayload (j : Json)
| VEnvelope (resp : Response)
| VExecute (response : option Json) (errors : list ExecuteError).

(** ** Promises *)

Inductive Future :=
| Pending
| Resolved (v : Value)
| Rejected (e : Error).

(** Settling is single assignment: only a pending promise changes. *)
Definition settle (new old : Future) : Future :=
  match old with
  | Pending => new
  | _ => old
  end.

(** ** Requests *)

(** Requests are named by their position in the heap. *)
Abbreviation ReqId := nat.

Record Request := mkRequest {
  method : string;
  params : gmap string string;
  attempts : Z;
  promise : Future;
  captcha : option nat     (* 'captcha' in request: index of its promise *)
}.

Definition with_params (p : gmap string string) (q : Request) : Request :=
  mkRequest (method q) p (attempts q) (promise q) (captcha q).
Definition with_attempts (n : Z) (q : Request) : Request :=
  mkRequest (method q) (params q) n (promise q) (captcha q).
Definition with_promise (f : Future) (q : Request) : Request :=
  mkRequest (method q) (params q) (attempts q) f (captcha q).
Definition with_captcha (c : option nat) (q : Request) : Request :=
  mkRequest (method q) (params q) (attempts q) (promise q) c.

(** ** Configuration: [vk.options] and [vk.captchaHandler] *)

Record Options := mkOptions {
  token : string;
  lang : option string;
  apiMode : option string;     (* None: undefined *)
  apiLimit : Z;
  apiAttempts : Z;
  apiWait : Z;
  apiTimeout : Z
}.

Record VK := mkVK {
  options : Options;
  captchaHandler : bool        (* false: vk.captchaHandler === null *)
}.

Definition setToken (t : string) (vk : VK) : VK :=
  let o := options vk in
  mkVK (mkOptions t (lang o) (apiMode o) (apiLimit o) (apiAttempts o)
          (apiWait o) (apiTimeout o))
       (captchaHandler vk).

(** ** Dispatch policies and pending continuations *)

(** What [requestHandlers[mode]] can evaluate to: one of the three own
    properties, or a member that the object literal inherits from
    [Object.prototype]. *)
Inductive Handler :=
| sequential
| parallel
| parallelSelected
| inherited (name : string).

(** What happens once the promise returned by [callMethod] settles: nothing
    ([Detached]), or a caller that awaited it then calls [next]. *)
Inductive Awaiter :=
| Detached
| ThenNext (h : Handler) (interval : Z).

(** The continuations that wait for something outside the scheduler: the
    rest of an [async] function after an [await], with the variables it
    captured, or a callback.  [fetch], [delay], [AccountVerification] and
    the captcha handler are collaborators: a call to one of them leaves a
    task, which the event loop resumes when the collaborator answers. *)
Inductive Task :=
| AwaitFetch (r : ReqId) (k : Awaiter)
    (* callMethod: await fetch(url, ...), await response.json() *)
| AwaitRestart (r : ReqId) (ms : Z) (k : Awaiter)
    (* callMethod: await delay(options.apiWait) *)
| AwaitBackoff (r : ReqId) (ms : Q)
    (* handleError: await delay((MINIMUM_TIME_INTERVAL_API / apiLimit) + 50) *)
| AwaitVerification (r : ReqId) (error : APIError)
    (* handleError: await verification.run(error.redirectUri) *)
| AwaitCooldown (ms : Z)
    (* handleError: await delay(15e3) *)
| AwaitCaptcha (r : ReqId) (sid : string)
    (* handleError: the callback handed to vk.captchaHandler *)
| Timeout (h : Handler) (interval : Z).
    (* worker: setTimeout(work, interval) *)

(** [new URL(input, base)], kept unresolved. *)
Record URL := mkURL { url_input : string; url_base : string }.

(** What the scheduler does to the outside, in the order it does it: the
    calls of its collaborators and the settling of promises. *)
Inductive Call :=
| Fetch (r : ReqId) (url : URL) (body : gmap string string) (timeout : Z)
| RunVerification (uri : string)
| AskCaptcha (type src sid : string) (r : ReqId)
| ResolveRequest (r : ReqId) (v : Value)
| RejectRequest (r : ReqId) (e : Error)
| ResolveCaptcha (c : nat)
| RejectCaptcha (c : nat) (e : Error).

(** ** The client instance *)

Record State := mkState {
  vk : VK;
  queue : list ReqId;
  started : bool;
  suspended : bool;
  baseUrl : string;
  requests : list Request;     (* heap of Request objects *)
  captchas : list Future;      (* heap of captcha promises *)
  tasks : list Task;           (* continuations waiting for an event *)
  trace : list Call
}.

Definition with_vk (x : VK) (st : State) : State :=
  mkState x (queue st) (started st) (suspended st) (baseUrl st)
    (requests st) (captchas st) (tasks st) (trace st).
Definition with_queue (x : list ReqId) (st : State) : State :=
  mkState (vk st) x (started st) (suspended st) (baseUrl st)
    (requests st) (captchas st) (tasks st) (trace st).
Definition with_started (x : bool) (st : State) : State :=
  mkState (vk st) (queue st) x (suspended st) (baseUrl st)
    (requests st) (captchas st) (tasks st) (trace st).
Definition with_suspended (x : bool) (st : State) : State :=
  mkState (vk st) (queue st) (started st) x (baseUrl st)
    (requests st) (captchas st) (tasks st) (trace st).
Definition with_baseUrl (x : string) (st : State) : State :=
  mkState (vk st) (queue st) (started st) (suspended st) x
    (requests st) (captchas st) (tasks st) (trace st).
Definition with_requests (x : list Request) (st : State) : State :=
  mkState (vk st) (queue st) (started st) (suspended st) (baseUrl st)
    x (captchas st) (tasks st) (trace st).
Definition with_captchas (x : list Future) (st : State) : State :=
  mkState (vk st) (queue st) (started st) (suspended st) (baseUrl st)
    (requests st) x (tasks st) (trace st).
Definition with_tasks (x : list Task) (st : State) : State :=
  mkState (vk st) (queue st) (started st) (suspended st) (baseUrl st)
    (requests st) (captchas st) x (trace st).
Definition with_trace (x : list Call) (st : State) : State :=
  mkState (vk st) (queue st) (started st) (suspended st) (baseUrl st)
    (requests st) (captchas st) (tasks st) x.

(** ** Synchronous code: state passing with exceptions *)

Inductive Outcome (A : Type) :=
| Returns (a : A) (st : State)
| Throws (e : Error) (st : State).
Arguments Returns {A} a st.
Arguments Throws {A} e st.

Definition M (A : Type) : Type := State -> Outcome A.

#[global] Instance M_ret : MRet M := fun A a st => Returns a st.
#[global] Instance M_bind : MBind M := fun A B f m st =>
  match m st with
  | Returns a st' => f a st'
  | Throws e st' => Throws e st'
  end.

Definition throw {A : Type} (e : Error) : M A := fun st => Throws e st.
Definition get : M State := fun st => Returns st st.
Definition modify (f : State -> State) : M unit := fun st => Returns tt (f st).
Definition when (b : bool) (m : M unit) : M unit := if b then m else mret tt.

(** The state in which a piece of code leaves the client. *)
Definition final {A : Type} (o : Outcome A) : State :=
  match o with
  | Returns _ st => st
  | Throws _ st => st
  end.

(** Calling an [async] function without awaiting it: what it throws rejects
    the promise it returned and never reaches the caller. *)
Definition detach (m : M unit) : M unit := fun st => Returns tt (final (m st)).

Definition emit (c : Call) : M unit :=
  modify (fun st => with_trace (trace st ++ [c]) st).
Definition await (t : Task) : M unit :=
  modify (fun st => with_tasks (tasks st ++ [t]) st).

(** ** Strings *)

(** [s.endsWith(t)] *)
Definition endsWith (s t : string) : bool :=
  (String.length t <=? String.length s)%nat &&
  String.eqb
    (substring (String.length s - String.length t) (String.length t) s) t.

(** [s.startsWith(t)] *)
Definition startsWith (s t : string) : bool := String.prefix t s.

(** [Math.round(q)] *)
Definition round (q : Q) : Z := Qfloor (q + (1 # 2))%Q.

(** ** What [index.mjs] imports *)

(** The values of [../utils/constants]. *)
Class Constants := {
  MINIMUM_TIME_INTERVAL_API : Z;
  BASE_URL_API : string;
  API_VERSION : string;
  CAPTCHA_REQUIRED : Z;
  TOO_MANY_REQUESTS : Z;
  USER_VALIDATION_REQUIRED : Z;
  captchaTypes_API : string
}.

(** The functions of [./workers], and whatever else [requestHandlers[mode]]
    evaluates to: [invoke handler interval] is the synchronous part of
    [handler.call(this, () => { setTimeout(work, interval); })]. *)
Class Workers := {
  invoke : Handler -> Z -> M unit
}.

(** The constructor [URL] of Node's module [url]: [valid_URL input base]
    tells whether [new URL(input, base)] returns; it throws a [TypeError]
    otherwise, as it does for a base that is not an absolute URL. *)
Class NodeUrl := {
  valid_URL : string -> string -> bool
}.

(** ** [getRequestHandler] *)

Definition requestHandlers : gmap string Handler :=
  {[ "sequential" := sequential;
     "parallel" := parallel;
     "parallel_selected" := parallelSelected ]}.

(** The names that every object literal inherits from [Object.prototype];
    each of them holds a truthy value. *)
Definition Object_prototype : list string :=
  [ "constructor"; "__defineGetter__"; "__defineSetter__"; "hasOwnProperty";
    "__lookupGetter__"; "__lookupSetter__"; "isPrototypeOf";
    "propertyIsEnumerable"; "toString"; "valueOf"; "__proto__";
    "toLocaleString" ].

(** [requestHandlers[mode]]; [None] is [undefined]. *)
Definition requestHandlers_get (mode : string) : option Handler :=
  match requestHandlers !! mode with
  | Some h => Some h
  | None =>
      if bool_decide (mode ∈ Object_prototype) then Some (inherited mode)
      else None
  end.

Definition getRequestHandler (mode : option string) : M Handler :=
  match requestHandlers_get (default "sequential" mode) with
  | Some handler => mret handler
  | None => throw (VKError "Unsuported api mode")
  end.

(** ** Requests on the heap *)

Definition request (r : ReqId) : M Request :=
  st ← get;
  match requests st !! r with
  | Some q => mret q
  | None => throw (TypeError "request is undefined")
  end.

Definition update (r : ReqId) (f : Request -> Request) : M unit :=
  modify (fun st => with_requests (alter f r (requests st)) st).

(** Modelled from the spec: the constructor of [Request] ([./request] is
    missing from the sources): the attempt counter starts at 0 and the
    result future is pending; no challenge future exists yet. *)
Definition new_Request (method : string) (params : gmap string string)
  : M ReqId :=
  st ← get;
  modify (with_requests
            (requests st ++ [mkRequest method params 0 Pending None]));;
  mret (length (requests st)).

(** Modelled from the spec: [Request.addAttempt] ([./request] is missing
    from the sources): the attempt counter is incremented on each transport
    failure; the call evaluates to the incremented counter. *)
Definition addAttempt (r : ReqId) : M Z :=
  q ← request r;
  update r (with_attempts (attempts q + 1));;
  mret (attempts q + 1)%Z.

(** Modelled from the spec: the members [resolve] and [reject] of [Request]
    ([./request] is missing from the sources): they settle the result
    future, which is single assignment. *)
Definition resolve (r : ReqId) (v : Value) : M unit :=
  emit (ResolveRequest r v);;
  update r (fun q => with_promise (settle (Resolved v) (promise q)) q).

Definition reject (r : ReqId) (e : Error) : M unit :=
  emit (RejectRequest r e);;
  update r (fun q => with_promise (settle (Rejected e) (promise q)) q).

(** [request.captcha.resolve()] and [request.captcha.reject(e)] *)
Definition captcha_resolve (c : nat) : M unit :=
  emit (ResolveCaptcha c);;
  modify (fun st =>
    with_captchas (alter (settle (Resolved VUndefined)) c (captchas st)) st).

Definition captcha_reject (c : nat) (e : Error) : M unit :=
  emit (RejectCaptcha c e);;
  modify (fun st =>
    with_captchas (alter (settle (Rejected e)) c (captchas st)) st).

(** [if ('captcha' in request) request.captcha.f(...)] *)
Definition if_captcha (r : ReqId) (f : nat -> M unit) : M unit :=
  q ← request r;
  match captcha q with
  | Some c => f c
  | None => mret tt
  end.

(** ** The class [API] *)

Section Scheduler.

Context {constants : Constants} {workers : Workers}.

Definition constructor (v : VK) : State :=
  mkState v [] false false BASE_URL_API [] [] [] [].

(** [get baseUrl()] *)
Definition get_baseUrl (st : State) : string := baseUrl st.

(** [set baseUrl(url)] *)
Definition set_baseUrl (url : string) : M string :=
  let url := if negb (endsWith url "/") then url +:+ "/" else url in
  modify (with_baseUrl url);;
  mret url.

(** The closure [work] of [worker]. *)
Definition work (handler : Handler) (interval : Z) : M unit :=
  st ← get;
  if (length (queue st) =? 0)%nat || suspended st then
    modify (with_started false)
  else
    invoke handler interval.

Definition worker : M unit :=
  st ← get;
  if started st then mret tt
  else
    modify (with_started true);;
    let o := options (vk st) in
    handler ← getRequestHandler (apiMode o);
    let interval :=
      round (inject_Z MINIMUM_TIME_INTERVAL_API / inject_Z (apiLimit o)) in
    work handler interval.

Definition callWithRequest (r : ReqId) : M ReqId :=
  modify (fun st => with_queue (queue st ++ [r]) st);;
  worker;;
  mret r.

Definition enqueue (method : string) (params : gmap string string)
  : M ReqId :=
  r ← new_Request method params;
  callWithRequest r.

Definition call (method : string) (params : gmap string string) : M ReqId :=
  enqueue method params.

Definition execute (params : gmap string string) : M ReqId :=
  enqueue "execute" params.

Definition procedure (name : string) (params : gmap string string)
  : M ReqId :=
  enqueue ("execute." +:+ name) params.

Definition requeue (r : ReqId) : M unit :=
  modify (fun st => with_queue (r :: queue st) st);;
  worker.

End Scheduler.

(** ** The recovery engine: [handleError] *)

Inductive VerificationResult :=
| Verified (token : string)
| VerificationThrew (e : Error).

Inductive CaptchaAnswer :=
| Key (key : string)
| KeyIsError (e : Error).

(** [try { body } catch (e) { handler }] *)
Definition try_catch (body : M unit) (handler : Error -> M unit) : M unit :=
  fun st =>
    match body st with
    | Returns a st' => Returns a st'
    | Throws e st' => handler e st'
    end.

Section Recovery.

Context {constants : Constants} {workers : Workers}.

(** [handleError] up to its first [await]. *)
Definition handleError (r : ReqId) (error : APIError) : M unit :=
  if (code error =? TOO_MANY_REQUESTS)%Z then
    st ← get;
    if suspended st then
      requeue r
    else
      modify (with_suspended true);;
      await (AwaitBackoff r
               (inject_Z MINIMUM_TIME_INTERVAL_API
                / inject_Z (apiLimit (options (vk st))) + 50)%Q)
  else
    if_captcha r (fun c => captcha_reject c (ApiError error));;
    if (code error =? USER_VALIDATION_REQUIRED)%Z then
      st ← get;
      when (suspended st) (requeue r);;
      modify (with_suspended true);;
      emit (RunVerification (redirectUri error));;
      await (AwaitVerification r error)
    else
      st ← get;
      let isCaptcha := (code error =? CAPTCHA_REQUIRED)%Z in
      if (isCaptcha && negb (captchaHandler (vk st))) || negb isCaptcha then
        reject r (ApiError error)
      else
        emit (AskCaptcha captchaTypes_API (captchaImg error)
                (captchaSid error) r);;
        await (AwaitCaptcha r (captchaSid error)).

(** After [await delay((MINIMUM_TIME_INTERVAL_API / apiLimit) + 50)]. *)
Definition handleError_backoff (r : ReqId) : M unit :=
  modify (with_suspended false);;
  requeue r.

(** The [catch (verificationError)] block up to its [await]. *)
Definition handleError_catch (r : ReqId) (error : APIError) : M unit :=
  reject r (ApiError error);;
  await (AwaitCooldown 15000).

(** After [await verification.run(error.redirectUri)]: the rest of the [try]
    block, or the [catch] block. *)
Definition handleError_verification (r : ReqId) (error : APIError)
    (res : VerificationResult) : M unit :=
  match res with
  | Verified t =>
      try_catch
        (modify (fun st => with_vk (setToken t (vk st)) st);;
         modify (with_suspended false);;
         requeue r)
        (fun _ => handleError_catch r error)
  | VerificationThrew _ => handleError_catch r error
  end.

(** After [await delay(15e3)]. *)
Definition handleError_cooldown : M unit :=
  modify (with_suspended false);;
  worker.

(** The callback handed to [vk.captchaHandler]: [key => new Promise(...)].
    What the executor throws rejects the promise it was building. *)
Definition handleError_retry (r : ReqId) (sid : string) (ans : CaptchaAnswer)
  : M unit :=
  st ← get;
  let c := length (captchas st) in
  modify (with_captchas (captchas st ++ [Pending]));;
  try_catch
    match ans with
    | KeyIsError key =>
        reject r key;;
        captcha_reject c key
    | Key key =>
        request r;;
        update r
          (fun q => with_params (<["captcha_sid" := sid]> (params q)) q);;
        update r
          (fun q => with_params (<["captcha_key" := key]> (params q)) q);;
        update r (with_captcha (Some c));;
        requeue r
    end
    (fun e => captcha_reject c e).

End Recovery.

(** ** The transport invoker: [callMethod] *)

Inductive FetchResult :=
| FetchThrew (error : Error)
| FetchReturned (response : Response).

(** The promise returned by [callMethod] settles: its awaiter, if any, calls
    [next], which is [() => { setTimeout(work, interval); }]. *)
Definition settled (k : Awaiter) : M unit :=
  match k with
  | Detached => mret tt
  | ThenNext h interval => await (Timeout h interval)
  end.

Section Transport.

Context {constants : Constants} {node_url : NodeUrl} {workers : Workers}.

(** [callMethod] up to [await fetch(...)].  The URL is built before the
    [try] block: what [new URL] throws rejects the promise that [callMethod]
    returned, and nothing is sent. *)
Definition callMethod (r : ReqId) (k : Awaiter) : M unit :=
  q ← request r;
  st ← get;
  let o := options (vk st) in
  if valid_URL (method q) (get_baseUrl st) then
    let url := mkURL (method q) (get_baseUrl st) in
    let params0 : gmap string string :=
      params q ∪ {[ "access_token" := token o; "v" := API_VERSION ]} in
    let params1 :=
      match lang o with
      | Some l => <["lang" := l]> params0
      | None => params0
      end in
    emit (Fetch r url params1 (apiTimeout o));;
    await (AwaitFetch r k)
  else throw (TypeError "Invalid URL").

(** After [await delay(options.apiWait)] in the [catch] block. *)
Definition callMethod_restart (r : ReqId) (k : Awaiter) : M unit :=
  requeue r;;
  settled k.

(** After the [try] block: [fetch] and [response.json()] have returned, or
    one of them has thrown. *)
Definition callMethod_fetched (r : ReqId) (k : Awaiter) (res : FetchResult)
  : M unit :=
  q ← request r;
  match res with
  | FetchThrew error =>
      st ← get;
      n ← addAttempt r;
      if (n <=? apiAttempts (options (vk st)))%Z then
        await (AwaitRestart r (apiWait (options (vk st))) k)
      else
        if_captcha r (fun c => captcha_reject c error);;
        reject r error;;
        settled k
  | FetchReturned response =>
      match resp_error response with
      | Some e =>
          detach (handleError r e);;
          settled k
      | None =>
          if_captcha r captcha_resolve;;
          if startsWith (method q) "execute" then
            resolve r
              (VExecute (resp_response response)
                 (mkExecuteError
                    <$> default [] (resp_execute_errors response)));;
            settled k
          else
            resolve r
              match resp_response response with
              | Some j => VPayload j
              | None => VEnvelope response
              end;;
            settled k
      end
  end.

End Transport.

(** ** The event loop *)

(** What settles the promise a task is waiting for. *)
Inductive Input :=
| Elapsed
| FetchDone (res : FetchResult)
| VerificationDone (res : VerificationResult)
| CaptchaRetry (ans : CaptchaAnswer).

Inductive Event :=
| Enqueue (method : string) (params : gmap string string)
| Resume (i : nat) (input : Input).

Section EventLoop.

Context {constants : Constants} {workers : Workers}.

(** The code that a pending task runs on its input, if the input fits. *)
Definition resume (t : Task) (input : Input) : option (M unit) :=
  match t, input with
  | AwaitFetch r k, FetchDone res => Some (callMethod_fetched r k res)
  | AwaitRestart r _ k, Elapsed => Some (callMethod_restart r k)
  | AwaitBackoff r _, Elapsed => Some (handleError_backoff r)
  | AwaitVerification r error, VerificationDone res =>
      Some (handleError_verification r error res)
  | AwaitCooldown _, Elapsed => Some handleError_cooldown
  | AwaitCaptcha r sid, CaptchaRetry ans => Some (handleError_retry r sid ans)
  | Timeout h interval, Elapsed => Some (work h interval)
  | _, _ => None
  end.

(** One turn of the event loop; [None] when the event cannot happen. *)
Definition step (ev : Event) (st : State) : option State :=
  match ev with
  | Enqueue method params => Some (final (enqueue method params st))
  | Resume i input =>
      t ← tasks st !! i;
      m ← resume t input;
      Some (final (m (with_tasks (delete i (tasks st)) st)))
  end.

Fixpoint run (evs : list Event) (st : State) : option State :=
  match evs with
  | [] => Some st
  | ev :: evs => st' ← step ev st; run evs st'
  end.

End EventLoop.

(** ** The dispatch policies *)

(** [queue.shift()], for a queue that holds a request. *)
Definition shift : M ReqId :=
  st ← get;
  match queue st with
  | r :: rest => modify (with_queue rest);; mret r
  | [] => throw (TypeError "request is undefined")
  end.

(** The requests handed to the transport invoker whose call has not settled. *)
Definition in_flight (st : State) : list ReqId :=
  omap (fun t =>
          match t with
          | AwaitFetch r _ => Some r
          | AwaitRestart r _ _ => Some r
          | _ => None
          end) (tasks st).

Section Policies.

Context {constants : Constants} {node_url : NodeUrl}.

(** The partition key of a request, which the spec leaves open. *)
Variable partition : Request -> string.

(** Modelled from the spec: the policy Sequential of [./workers] (missing
    from the sources): pop exactly one Request, invoke the Transport
    Invoker, and call the continuation only after that call settles. *)
Definition sequential_policy (interval : Z) : M unit :=
  r ← shift;
  detach (callMethod r (ThenNext sequential interval)).

(** Modelled from the spec: the policy Parallel of [./workers] (missing from
    the sources): pop one Request per tick, invoke the Transport Invoker
    without waiting, and call the continuation immediately. *)
Definition parallel_policy (interval : Z) : M unit :=
  r ← shift;
  detach (callMethod r Detached);;
  await (Timeout parallel interval).

(** Modelled from the spec: the policy Partitioned-Parallel of [./workers]
    (missing from the sources): if another Request with the same partition
    key is already in flight, leave this Request at the Queue head and skip
    this tick; call the continuation immediately regardless. *)
Definition parallelSelected_policy (interval : Z) : M unit :=
  st ← get;
  match queue st with
  | r :: rest =>
      q ← request r;
      (if bool_decide
            (Exists
               (fun r' =>
                  partition <$> requests st !! r' = Some (partition q))
               (in_flight st))
       then mret tt
       else modify (with_queue rest);; detach (callMethod r Detached));;
      await (Timeout parallelSelected interval)
  | [] => throw (TypeError "request is undefined")
  end.

(** What [Function.prototype.call] does on an inherited member: the
    accessors and [__proto__] throw a [TypeError], the other functions
    return without touching the client or calling [next]. *)
Definition inherited_call (name : string) : M unit :=
  if bool_decide
       (name ∈ ["__defineGetter__"; "__defineSetter__"; "__proto__"])
  then throw (TypeError "not a function")
  else mret tt.

Definition spec_workers : Workers :=
  {| invoke handler interval :=
       match handler with
       | sequential => sequential_policy interval
       | parallel => parallel_policy interval
       | parallelSelected => parallelSelected_policy interval
       | inherited name => inherited_call name
       end |}.

End Policies.

(** ** Sample configuration, for running the model *)

Definition sample_constants : Constants :=
  {| MINIMUM_TIME_INTERVAL_API := 1133;
     BASE_URL_API := "https://api.vk.com/method/";
     API_VERSION := "5.85";
     CAPTCHA_REQUIRED := 14;
     TOO_MANY_REQUESTS := 6;
     USER_VALIDATION_REQUIRED := 17;
     captchaTypes_API := "api" |}.

(** A [URL] constructor for running the model: it takes the bases of
    scheme http or https, and with them the methods that do not start with
    '/'. *)
Definition sample_node_url : NodeUrl :=
  {| valid_URL input base :=
       (startsWith base "https://" || startsWith base "http://")
       && negb (startsWith input "/") |}.

Definition sample_workers : Workers :=
  @spec_workers sample_constants sample_node_url
    (fun q => default "" (params q !! "peer_id")).

Definition sample_vk (mode : option string) (handler : bool) : VK :=
  mkVK (mkOptions "t0" None mode 3 3 3000 10000) handler.

(** ** Observations on states *)

(** Tasks that go on to call [work]: a pending [setTimeout(work, interval)],
    or a [callMethod] whose awaiter calls [next]. *)
Definition drives_loop (t : Task) : bool :=
  match t with
  | Timeout _ _ => true
  | AwaitFetch _ (ThenNext _ _) => true
  | AwaitRestart _ _ (ThenNext _ _) => true
  | _ => false
  end.

Definition loops (st : State) : nat :=
  length (filter (fun t => drives_loop t = true) (tasks st)).

(** How many times does [r] occur in the queue? *)
Definition occurrences (r : ReqId) (st : State) : nat :=
  length (filter (fun r' => r' = r) (queue st)).

(** The result future of request [r]. *)
Definition result (r : ReqId) (st : State) : option Future :=
  promise <$> requests st !! r.

(** The challenge future attached to request [r], if any. *)
Definition challenge (r : ReqId) (st : State) : option Future :=
  q ← requests st !! r;
  c ← captcha q;
  captchas st !! c.

(** ** Sample clients and replies, for running the model *)

Definition sample_client (mode : option string) (handler : bool) : State :=
  @constructor sample_constants (sample_vk mode handler).

(** A client in mode 'parallel' whose only request, "users.get", is in
    flight; the scheduler loop is waiting for its next tick. *)
Definition sample_in_flight (handler : bool) : State := Eval vm_compute in
  final (@enqueue sample_constants sample_workers "users.get" ∅
           (sample_client (Some "parallel") handler)).

Definition sample_request : Request := mkRequest "users.get" ∅ 0 Pending None.

(** The same client after the tick that finds the queue empty. *)
Definition sample_idle (handler : bool) : State := Eval vm_compute in
  default (sample_in_flight handler)
    (@step sample_constants sample_workers (Resume 1 Elapsed)
       (sample_in_flight handler)).

(** A client whose only request, "execute", is in flight. *)
Definition sample_execute : State := Eval vm_compute in
  final (@execute sample_constants sample_workers ∅
           (sample_client (Some "parallel") false)).

Definition too_many_requests : APIError :=
  mkAPIError 6 "Too many requests per second" "" "" "".
Definition validation_required : APIError :=
  mkAPIError 17 "Validation required" "https://m.vk.com/login" "" "".

Definition failed (e : APIError) : Input :=
  FetchDone (FetchReturned (mkResponse (Some e) None None)).

(** The sample client after its call was answered with "too many requests":
    [suspended] is true and the backoff wait is pending. *)
Definition sample_suspended : State := Eval vm_compute in
  default (sample_in_flight false)
    (@step sample_constants sample_workers
       (Resume 0 (failed too_many_requests)) (sample_in_flight false)).

(** Two requests are dispatched in mode 'parallel'; both calls are answered
    with "validation required", the second while the recovery of the first
    holds [suspended]; the re-authentication started for the second request
    then succeeds. *)
Definition duplicating_run : list Event :=
  [ Enqueue "users.get" ∅;
    Enqueue "messages.send" ∅;
    Resume 1 Elapsed;
    Resume 0 (failed validation_required);
    Resume 0 (failed validation_required);
    Resume 2 (VerificationDone (Verified "t1")) ].

(** The same, after the scheduler loop has gone idle: the queue was found
    empty by a tick before the replies arrived.  Two more ticks follow. *)
Definition duplicating_run_idle : list Event :=
  [ Enqueue "users.get" ∅;
    Enqueue "messages.send" ∅;
    Resume 1 Elapsed;
    Resume 2 Elapsed;
    Resume 0 (failed validation_required);
    Resume 0 (failed validation_required);
    Resume 1 (VerificationDone (Verified "t1"));
    Resume 2 Elapsed ].

(** The sample client without a retry of the calls that fail at the
    transport level. *)
Definition sample_vk_no_retry : VK :=
  mkVK (mkOptions "t0" None (Some "parallel") 3 0 3000 10000) false.

(** [duplicating_run], then the tick that hands one of the two copies of
    the request "messages.send" to the transport, the failure of that call
    at the transport level, and the next tick. *)
Definition redispatching_run : list Event :=
  duplicating_run
  ++ [ Resume 0 Elapsed;
       Resume 1 (FetchDone (FetchThrew (FetchError "ETIMEDOUT")));
       Resume 1 Elapsed ].

(** The requests of the [Fetch] calls made so far. *)
Definition fetched (st : State) : list ReqId :=
  omap (fun c => match c with Fetch r _ _ _ => Some r | _ => None end)
    (trace st).

(** ** Invariants of the event loop *)

(** How many loops does a continuation that is running keep alive?  One if
    it goes on to call [next], none otherwise. *)
Definition credit (k : Awaiter) : nat :=
  match k with
  | Detached => 0
  | ThenNext _ _ => 1
  end.

(** At most one scheduler loop is alive, and none when [started] is false;
    [n] counts the loops kept alive by the code that is running. *)
Definition single_loop (n : nat) (st : State) : Prop :=
  loops st + n <= 1 /\ (started st = false -> loops st + n = 0).

(** Does the continuation [t] hold the request [r]? *)
Definition mentions (r : ReqId) (t : Task) : bool :=
  match t with
  | AwaitFetch r' _ | AwaitRestart r' _ _ | AwaitBackoff r' _
  | AwaitVerification r' _ | AwaitCaptcha r' _ => bool_decide (r' = r)
  | AwaitCooldown _ | Timeout _ _ => false
  end.

(** How many times has [r] been handed to the transport? *)
Definition dispatches (r : ReqId) (st : State) : nat :=
  length (filter (fun r' => r' = r) (fetched st)).

(** The request [r] exists, is neither in the queue nor held by a pending
    continuation, and has been dispatched [n] times. *)
Definition retired (r : ReqId) (n : nat) (st : State) : Prop :=
  r < length (requests st) /\
  (r ∉ queue st) /\
  Forall (fun t => mentions r t = false) (tasks st) /\
  dispatches r st = n.

(** Whatever way [m] ends, with a value or with an exception, it takes a
    state of [P] to a state of [Q]. *)
Definition hoare {A : Type} (P : State -> Prop) (m : M A) (Q : State -> Prop)
  : Prop :=
  forall st, P st -> Q (final (m st)).

(** A request whose call fails at the transport level until its attempts
    are used up (the sample client allows 3): each failure is followed by
    the wait, the requeue and the tick that dispatches it again. *)
Definition exhausting_run : list Event :=
  let threw := Resume 0 (FetchDone (FetchThrew (FetchError "ETIMEDOUT"))) in
  [ Enqueue "users.get" ∅;
    threw; Resume 1 Elapsed; Resume 0 Elapsed;
    threw; Resume 1 Elapsed; Resume 0 Elapsed;
    threw; Resume 1 Elapsed; Resume 0 Elapsed ].

(** The sample client after [exhausting_run], when the reply to the fourth
    call arrives: the continuation of [callMethod] has left the pending
    tasks and is about to run. *)
Definition sample_exhausted : State := Eval vm_compute in
  let st := default (sample_client (Some "parallel") false)
              (@run sample_constants sample_workers exhausting_run
                 (sample_client (Some "parallel") false)) in
  with_tasks (delete 0 (tasks st)) st.

(** ** The method groups that the constructor installs *)

Section Groups.

Context {constants : Constants} {workers : Workers}.

(** The [send] of the group 'messages'; [random] is what [getRandomId()]
    of [../utils/helpers] returns when it is called, and [params] is [None]
    when the argument is [undefined]. *)
Definition messages_send
    (random : string) (params : option (gmap string string)) : M ReqId :=
  let params := default ∅ params in
  let params :=
    if negb (bool_decide (is_Some (params !! "random_id")))
    then <["random_id" := random]> params
    else params in
  enqueue "messages.send" params.

End Groups.

(** ** [TypingContext] *)

Module TypingContext.

(** The elements of a long-poll update, and what the constructor computes
    from them; the numbers are integers, on which [+] is exact below 2^53. *)
Inductive Js :=
| Undefined
| Null
| NaN
| Number (n : Z).

(** [x === n], for a number [n] *)
Definition strict_eq (x : Js) (n : Z) : bool :=
  match x with
  | Number m => (m =? n)%Z
  | _ => false
  end.

(** [x + n], for a number [n] *)
Definition add (x : Js) (n : Z) : Js :=
  match x with
  | Number m => Number (m + n)
  | Null => Number n
  | Undefined | NaN => NaN
  end.

(** [list.includes(s)] *)
Definition includes (l : list string) (s : string) : bool :=
  existsb (String.eqb s) l.

Record Payload := mkPayload {
  user_id : Js;
  chat_id : Js;
  peer_id : Js
}.

Record t := mk {
  payload : Payload;
  type : string;
  subTypes : list string
}.

Section Constructor.

(** [CHAT_PEER] of [../../utils/constants]. *)
Variable CHAT_PEER : Z.

(** [new TypingContext(vk, [eventId, userId, extra])] *)
Definition new (eventId userId extra : Js) : t :=
  let isChat := strict_eq eventId 62 in
  mk (mkPayload userId
        (if isChat then extra else Null)
        (if isChat then add extra CHAT_PEER else userId))
     "typing"
     [ if strict_eq eventId 61 then "typing_user" else "typing_chat" ].

End Constructor.

Definition isUser (ctx : t) : bool := includes (subTypes ctx) "typing_user".
Definition isChat (ctx : t) : bool := includes (subTypes ctx) "typing_chat".
Definition peerId (ctx : t) : Js := peer_id (payload ctx).
Definition userId (ctx : t) : Js := user_id (payload ctx).
Definition chatId (ctx : t) : Js := chat_id (payload ctx).

End TypingContext.

(** ** More invariants of the event loop *)

(** [m] takes a state of [P] to a state of [Q] when it returns and to a
    state of [E] when it throws. *)
Definition triple {A : Type}
    (P : State -> Prop) (m : M A) (Q E : State -> Prop) : Prop :=
  forall st, P st ->
    match m st with
    | Returns _ st' => Q st'
    | Throws _ st' => E st'
    end.

Definition is_settled (f : Future) : bool :=
  match f with
  | Pending => false
  | _ => true
  end.

(** The result future of [r] is settled. *)
Definition answered (r : ReqId) (st : State) : Prop :=
  (is_settled <$> result r st) = Some true.

(** The request [r] is somewhere: in the queue, held by a continuation that
    is pending, or answered. *)
Definition accounted (r : ReqId) (st : State) : Prop :=
  r ∈ queue st \/
  Exists (fun t => mentions r t = true) (tasks st) \/
  answered r st.

Section Conservation.

Context {node_url : NodeUrl}.

(** The queue and the pending continuations hold requests of the heap, the
    base URL is [base], and [new URL] takes the method of every request with
    it. *)
Definition well_formed (base : string) (st : State) : Prop :=
  Forall (fun r => r < length (requests st)) (queue st) /\
  Forall (fun t => forall r, mentions r t = true -> r < length (requests st))
    (tasks st) /\
  baseUrl st = base /\
  Forall (fun q => valid_URL (method q) base = true) (requests st).

(** No request is lost. *)
Definition conserved (base : string) (st : State) : Prop :=
  well_formed base st /\
  forall r, r < length (requests st) -> accounted r st.

(** The same while the code that took [r0] runs: [r0] itself is somewhere
    again once that code has given it [back]. *)
Definition kept (base : string) (r0 : ReqId) (back : bool) (st : State)
  : Prop :=
  well_formed base st /\
  r0 < length (requests st) /\
  forall r, r < length (requests st) -> (r = r0 -> back = true) ->
    accounted r st.

(** Going from [st] to [st'] loses no request and allocates none, and
    leaves the base URL and the methods alone. *)
Definition keeps (st st' : State) : Prop :=
  forall base,
    well_formed base st ->
    well_formed base st' /\
    length (requests st') = length (requests st) /\
    forall r, accounted r st -> accounted r st'.

(** The calls among [evs] are of methods that [new URL] takes with
    [base]. *)
Definition resolvable (base : string) (evs : list Event) : Prop :=
  Forall (fun ev =>
            match ev with
            | Enqueue method _ => valid_URL method base = true
            | Resume _ _ => True
            end) evs.

End Conservation.

(** The continuations that end a suspension. *)
Definition recovers (t : Task) : bool :=
  match t with
  | AwaitBackoff _ _ | AwaitVerification _ _ | AwaitCooldown _ => true
  | _ => false
  end.

(** While [suspended] is true, a continuation that clears it is pending. *)
Definition backed (st : State) : Prop :=
  suspended st = true -> Exists (fun t => recovers t = true) (tasks st).

(** ** More sample clients *)

(** The idle sample client with its request back in the queue. *)
Definition sample_requeued : State := Eval vm_compute in
  with_queue [0] (sample_idle false).

(** A client whose mode is no policy, after the call that made [worker]
    throw, and the same after two more calls. *)
Definition sample_stalled : State := Eval vm_compute in
  final (@enqueue sample_constants sample_workers "users.get" ∅
           (sample_client (Some "serial") false)).

(** The same client with its loop marked as stopped. *)
Definition sample_stalled_idle : State := Eval vm_compute in
  with_started false sample_stalled.

Definition sample_stalled_later : State := Eval vm_compute in
  default sample_stalled
    (@run sample_constants sample_workers
       [Enqueue "friends.get" ∅; Enqueue "wall.get" ∅] sample_stalled).


(** A request that carries a challenge future, which is pending. *)
Definition sample_challenged : State := Eval vm_compute in
  with_captchas [Pending]
    (with_requests [with_captcha (Some 0) sample_request]
       (sample_in_flight true)).

(** * Properties *)

(** Unfolds the state-passing combinators. *)
Ltac exec :=
  repeat (progress (unfold mbind, M_bind, mret, M_ret, get, modify, throw,
                      when, emit, await, detach, final, try_catch; cbn)).

(** Unfolds the operations on promises and on the heap of requests too. *)
Ltac exec_settle :=
  repeat (progress (unfold resolve, reject, captcha_resolve, captcha_reject,
                      update, settled; exec)).

(** ** Some values *)

Example round_interval : round (inject_Z 1133 / inject_Z 3) = 378%Z.
Proof. reflexivity. Qed.

Example round_half_up : round (inject_Z 5 / inject_Z 2) = 3%Z.
Proof. reflexivity. Qed.

Example endsWith_slash : endsWith "https://api.vk.com/method/" "/" = true.
Proof. reflexivity. Qed.

Example endsWith_no_slash : endsWith "https://api.vk.com/method" "/" = false.
Proof. reflexivity. Qed.

Example startsWith_execute : startsWith "execute.getFriends" "execute" = true.
Proof. reflexivity. Qed.

Example requestHandlers_get_own :
  requestHandlers_get "parallel_selected" = Some parallelSelected.
Proof. by vm_compute. Qed.

Example requestHandlers_get_toString :
  requestHandlers_get "toString" = Some (inherited "toString").
Proof. by vm_compute. Qed.

Example requestHandlers_get_undefined : requestHandlers_get "batch" = None.
Proof. by vm_compute. Qed.

Example set_baseUrl_appends :
  get_baseUrl
    (final (@set_baseUrl "https://example.org/api"
              (sample_client None false)))
  = "https://example.org/api/".
Proof. reflexivity. Qed.

(** ** Strings *)

Lemma length_append_string (s t : string) :
  String.length (s +:+ t) = (String.length s + String.length t)%nat.
Proof. induction s as [|a s IH]; simpl; [done | by rewrite IH]. Qed.

Lemma substring_whole (t : string) : substring 0 (String.length t) t = t.
Proof. induction t as [|b t IH]; simpl; [done | by rewrite IH]. Qed.

Lemma substring_append_tail (s t : string) :
  substring (String.length s) (String.length t) (s +:+ t) = t.
Proof.
  induction s as [|a s IH]; simpl; [apply substring_whole | exact IH].
Qed.

Lemma endsWith_append (s t : string) : endsWith (s +:+ t) t = true.
Proof.
  unfold endsWith. rewrite length_append_string.
  replace (String.length s + String.length t - String.length t)%nat
    with (String.length s) by lia.
  rewrite substring_append_tail, String.eqb_refl, andb_true_r.
  apply Nat.leb_le. lia.
Qed.

(** ** The handler table *)

Lemma requestHandlers_get_unknown (mode : string) :
  mode ≠ "sequential" -> mode ≠ "parallel" -> mode ≠ "parallel_selected" ->
  mode ∉ Object_prototype ->
  requestHandlers_get mode = None.
Proof.
  intros. unfold requestHandlers_get, requestHandlers.
  rewrite !lookup_insert_ne by done. rewrite lookup_singleton_ne by done.
  by rewrite bool_decide_eq_false_2.
Qed.

Lemma requestHandlers_get_inherited (mode : string) :
  mode ∈ Object_prototype ->
  requestHandlers_get mode = Some (inherited mode).
Proof.
  intros Hin. unfold requestHandlers_get.
  assert (requestHandlers !! mode = None) as ->.
  { unfold Object_prototype in Hin.
    repeat (apply elem_of_cons in Hin as [-> | Hin]; [by vm_compute|]).
    by apply elem_of_nil in Hin. }
  by rewrite bool_decide_eq_true_2.
Qed.

Section Basics.

Context {constants : Constants} {workers : Workers}.

(** ** The heap *)

Lemma with_started_same (st : State) : with_started (started st) st = st.
Proof. by destruct st. Qed.

Lemma request_found (r : ReqId) (q : Request) (st : State) :
  requests st !! r = Some q -> request r st = Returns q st.
Proof. intros H. unfold request. exec. by rewrite H. Qed.

Lemma if_captcha_found
    (r : ReqId) (q : Request) (f : nat -> M unit) (st : State) :
  requests st !! r = Some q ->
  if_captcha r f st
  = match captcha q with
    | Some c => f c st
    | None => Returns tt st
    end.
Proof.
  intros H. unfold if_captcha. exec. rewrite (request_found _ _ _ H).
  by destruct (captcha q).
Qed.

Lemma addAttempt_found (r : ReqId) (q : Request) (st : State) :
  requests st !! r = Some q ->
  addAttempt r st
  = Returns (attempts q + 1)%Z
      (with_requests
         (alter (with_attempts (attempts q + 1)) r (requests st)) st).
Proof.
  intros H. unfold addAttempt. exec. by rewrite (request_found _ _ _ H).
Qed.

(** ** The scheduler loop *)

Lemma worker_running (st : State) :
  started st = true -> worker st = Returns tt st.
Proof. intros Hs. unfold worker. exec. by rewrite Hs. Qed.

Lemma work_idle (handler : Handler) (interval : Z) (st : State) :
  queue st = [] \/ suspended st = true ->
  work handler interval st = Returns tt (with_started false st).
Proof.
  intros H. unfold work. exec.
  destruct H as [-> | ->]; [done | by rewrite orb_true_r].
Qed.

Lemma work_dispatch (handler : Handler) (interval : Z) (st : State) :
  queue st ≠ [] -> suspended st = false ->
  work handler interval st = invoke handler interval st.
Proof.
  intros Hq Hs. unfold work. exec. rewrite Hs.
  by destruct (queue st).
Qed.

(** While [suspended] is true, [worker] changes [started] at most. *)
Lemma worker_suspended (st : State) :
  suspended st = true ->
  exists b, final (worker st) = with_started b st.
Proof.
  intros Hs. destruct (started st) eqn:Hst.
  - exists true. rewrite worker_running by done. cbn.
    by rewrite <- Hst, with_started_same.
  - unfold worker, getRequestHandler. exec. rewrite Hst. cbn.
    destruct (requestHandlers_get _) as [h|]; cbn.
    + exists false. by rewrite work_idle by (right; exact Hs).
    + by exists true.
Qed.

Lemma requeue_suspended (r : ReqId) (st : State) :
  suspended st = true ->
  exists b,
    final (requeue r st) = with_started b (with_queue (r :: queue st) st).
Proof.
  intros Hs. unfold requeue. exec.
  apply (worker_suspended (with_queue (r :: queue st) st)). exact Hs.
Qed.

(** A mode that is neither a policy nor a member of [Object.prototype] makes
    [worker] throw, with [started] left true. *)
Lemma worker_unknown_mode (mode : string) (st : State) :
  started st = false ->
  apiMode (options (vk st)) = Some mode ->
  mode ≠ "sequential" -> mode ≠ "parallel" -> mode ≠ "parallel_selected" ->
  mode ∉ Object_prototype ->
  worker st = Throws (VKError "Unsuported api mode") (with_started true st).
Proof.
  intros Hs Hm ? ? ? ?. unfold worker, getRequestHandler. exec.
  rewrite Hs, Hm. cbn. by rewrite requestHandlers_get_unknown.
Qed.

End Basics.

(** ** Reasoning on code that may throw *)

Section Hoare.

Context {A B : Type} (P Q : State -> Prop).

Lemma hoare_ret (a : A) : (forall st, P st -> Q st) -> hoare P (mret a) Q.
Proof. intros H st. apply H. Qed.

Lemma hoare_throw (e : Error) :
  (forall st, P st -> Q st) -> hoare P (throw e : M A) Q.
Proof. intros H st. apply H. Qed.

Lemma hoare_bind (m : M A) (f : A -> M B) :
  hoare P m P -> (forall st, P st -> Q st) -> (forall a, hoare P (f a) Q) ->
  hoare P (m ≫= f) Q.
Proof.
  intros Hm Hpq Hf st HP. specialize (Hm st HP).
  unfold mbind, M_bind. destruct (m st) as [a st'|e st']; cbn in *.
  - by apply Hf.
  - by apply Hpq.
Qed.

Lemma hoare_pure (m : M A) :
  (forall st, final (m st) = st) -> (forall st, P st -> Q st) -> hoare P m Q.
Proof. intros Hm H st HP. rewrite Hm. by apply H. Qed.

End Hoare.

Lemma hoare_detach (P Q : State -> Prop) (m : M unit) :
  hoare P m Q -> hoare P (detach m) Q.
Proof. intros H st. apply H. Qed.

Lemma hoare_try_catch
    (P Q : State -> Prop) (m : M unit) (h : Error -> M unit) :
  hoare P m P -> (forall st, P st -> Q st) -> (forall e, hoare P (h e) Q) ->
  hoare P (try_catch m h) Q.
Proof.
  intros Hm Hpq Hh st HP. specialize (Hm st HP).
  unfold try_catch. destruct (m st) as [a st'|e st']; cbn in *.
  - by apply Hpq.
  - by apply Hh.
Qed.

Lemma request_pure (r : ReqId) (st : State) : final (request r st) = st.
Proof. unfold request. exec. by destruct (requests st !! r). Qed.

Lemma getRequestHandler_pure (mode : option string) (st : State) :
  final (getRequestHandler mode st) = st.
Proof. unfold getRequestHandler. by destruct (requestHandlers_get _). Qed.

Ltac hoare_struct side :=
  match goal with
  | |- hoare _ (mbind _ _) _ => apply hoare_bind; [ | side | intros ? ]
  | |- hoare _ (mret _) _ => apply hoare_ret; side
  | |- hoare _ (throw _) _ => apply hoare_throw; side
  | |- hoare _ get _ => apply hoare_pure; [done | side]
  | |- hoare _ (request _) _ => apply hoare_pure; [apply request_pure | side]
  | |- hoare _ (getRequestHandler _) _ =>
      apply hoare_pure; [apply getRequestHandler_pure | side]
  | |- hoare _ (detach _) _ => apply hoare_detach
  | |- hoare _ (try_catch _ _) _ =>
      apply hoare_try_catch; [ | side | intros ? ]
  | |- hoare _ (when ?b _) _ => destruct b; unfold when
  | |- hoare _ (if ?b then _ else _) _ => destruct b
  | |- hoare _ (match ?x with _ => _ end) _ => destruct x
  end.

(** ** At most one scheduler loop *)

Lemma drivers_snoc (t : Task) (l : list Task) :
  length (filter (fun t => drives_loop t = true) (l ++ [t]))
  = length (filter (fun t => drives_loop t = true) l)
    + (if drives_loop t then 1 else 0).
Proof.
  rewrite filter_app, length_app. f_equal.
  rewrite filter_cons, filter_nil. destruct (drives_loop t); by case_decide.
Qed.

Lemma loops_await (t : Task) (st : State) :
  loops (with_tasks (tasks st ++ [t]) st)
  = loops st + (if drives_loop t then 1 else 0).
Proof. apply drivers_snoc. Qed.

Lemma loops_delete (i : nat) (t : Task) (l : list Task) :
  l !! i = Some t ->
  length (filter (fun t => drives_loop t = true) l)
  = length (filter (fun t => drives_loop t = true) (delete i l))
    + (if drives_loop t then 1 else 0).
Proof.
  revert i. induction l as [|x l IH]; intros [|i] H; try done.
  - injection H as ->. rewrite filter_cons.
    change (delete 0 (t :: l)) with l.
    destruct (drives_loop t); case_decide; try done; cbn; lia.
  - change (delete (S i) (x :: l)) with (x :: delete i l).
    rewrite !filter_cons. specialize (IH i H).
    case_decide; cbn; lia.
Qed.

Section Loop.

Context {constants : Constants} {workers : Workers}.

(** The handlers call [next] at most once and leave [started] alone. *)
Hypothesis invoke_next_once :
  forall (h : Handler) (interval : Z) (st : State),
    loops (final (invoke h interval st)) <= S (loops st) /\
    started (final (invoke h interval st)) = started st.

Lemma single_loop_weaken (n : nat) (st : State) :
  single_loop n st -> single_loop 0 st.
Proof.
  unfold single_loop. intros [H1 H2]. split; [lia|].
  intros H. specialize (H2 H). lia.
Qed.

(** A loop is spawned only by [worker], and only when none is alive. *)
Lemma worker_single_loop (n : nat) :
  hoare (single_loop n) worker (single_loop n).
Proof.
  intros st [H1 H2]. destruct (started st) eqn:Hst.
  - rewrite worker_running by done. split; [exact H1|]. cbn. by rewrite Hst.
  - specialize (H2 eq_refl).
    unfold worker. exec. rewrite Hst. exec.
    pose proof (getRequestHandler_pure (apiMode (options (vk st)))
                  (with_started true st)) as Hp.
    destruct (getRequestHandler _ _) as [h st'|e st']; cbn in Hp; subst st'.
    2:{ split; cbn; [unfold loops in *; cbn; lia | done]. }
    unfold work. exec.
    destruct ((length (queue st) =? 0)%nat || suspended st).
    + cbn. split; unfold loops in *; cbn; lia.
    + destruct (invoke_next_once h
                  (round (inject_Z MINIMUM_TIME_INTERVAL_API
                          / inject_Z (apiLimit (options (vk st)))))
                  (with_started true st)) as [Hl Hs].
      unfold final in *.
      destruct (invoke _ _ _) as [[] st'|e st']; cbn in *;
        unfold single_loop; rewrite Hs;
        (split; [unfold loops in *; cbn in *; lia | done]).
Qed.

Lemma single_loop_frame (n : nat) (st st' : State) :
  tasks st' = tasks st -> started st' = started st ->
  single_loop n st -> single_loop n st'.
Proof. unfold single_loop, loops. by intros -> ->. Qed.

Lemma sl_frame (n : nat) (f : State -> State) :
  (forall st, tasks (f st) = tasks st) ->
  (forall st, started (f st) = started st) ->
  hoare (single_loop n) (modify f) (single_loop n).
Proof.
  intros H1 H2 st H. unfold modify. cbn.
  by apply (single_loop_frame n st).
Qed.

Lemma sl_await (n : nat) (t : Task) :
  drives_loop t = false ->
  hoare (single_loop n) (await t) (single_loop n).
Proof.
  intros Ht st [H1 H2].
  change (final (await t st)) with (with_tasks (tasks st ++ [t]) st).
  unfold single_loop. rewrite loops_await, Ht.
  split; [lia|]. intros H. specialize (H2 H). lia.
Qed.

Lemma sl_await_driver (t : Task) :
  hoare (single_loop 1) (await t) (single_loop 0).
Proof.
  intros st [H1 H2].
  change (final (await t st)) with (with_tasks (tasks st ++ [t]) st).
  unfold single_loop. rewrite loops_await.
  destruct (drives_loop t); (split; [lia|]);
    intros H; specialize (H2 H); lia.
Qed.

Lemma sl_settled (k : Awaiter) :
  hoare (single_loop (credit k)) (settled k) (single_loop 0).
Proof.
  destruct k; cbn.
  - by apply hoare_ret.
  - apply sl_await_driver.
Qed.

Ltac sl_side := first [ done | by apply single_loop_weaken | by intros ? ? ].

Ltac sl :=
  repeat first
    [ hoare_struct sl_side
    | match goal with
      | |- hoare _ (emit _) _ => by apply sl_frame
      | |- hoare _ (update _ _) _ => by apply sl_frame
      | |- hoare _ (modify _) _ => by apply sl_frame
      | |- hoare _ (await _) _ =>
          first [ by apply sl_await | apply sl_await_driver ]
      | |- hoare _ (settled _) _ => apply sl_settled
      end ].

Lemma sl_reject (n : nat) (r : ReqId) (e : Error) :
  hoare (single_loop n) (reject r e) (single_loop n).
Proof. unfold reject. sl. Qed.

Lemma sl_resolve (n : nat) (r : ReqId) (v : Value) :
  hoare (single_loop n) (resolve r v) (single_loop n).
Proof. unfold resolve. sl. Qed.

Lemma sl_captcha_reject (n : nat) (c : nat) (e : Error) :
  hoare (single_loop n) (captcha_reject c e) (single_loop n).
Proof. unfold captcha_reject. sl. Qed.

Lemma sl_captcha_resolve (n : nat) (c : nat) :
  hoare (single_loop n) (captcha_resolve c) (single_loop n).
Proof. unfold captcha_resolve. sl. Qed.

Lemma sl_if_captcha (n : nat) (r : ReqId) (f : nat -> M unit) :
  (forall c, hoare (single_loop n) (f c) (single_loop n)) ->
  hoare (single_loop n) (if_captcha r f) (single_loop n).
Proof. intros Hf. unfold if_captcha. sl. apply Hf. Qed.

Lemma sl_addAttempt (n : nat) (r : ReqId) :
  hoare (single_loop n) (addAttempt r) (single_loop n).
Proof. unfold addAttempt. sl. Qed.

Lemma sl_requeue (n : nat) (r : ReqId) :
  hoare (single_loop n) (requeue r) (single_loop n).
Proof. unfold requeue. sl. apply worker_single_loop. Qed.

Ltac sl_calls :=
  sl;
  match goal with
  | |- hoare _ worker _ => apply worker_single_loop
  | |- hoare _ (requeue _) _ => apply sl_requeue
  | |- hoare _ (reject _ _) _ => apply sl_reject
  | |- hoare _ (resolve _ _) _ => apply sl_resolve
  | |- hoare _ (captcha_reject _ _) _ => apply sl_captcha_reject
  | |- hoare _ (addAttempt _) _ => apply sl_addAttempt
  | |- hoare _ (if_captcha _ captcha_resolve) _ =>
      apply sl_if_captcha; intros; apply sl_captcha_resolve
  | |- hoare _ (if_captcha _ _) _ =>
      apply sl_if_captcha; intros; apply sl_captcha_reject
  end.

Lemma sl_handleError (n : nat) (r : ReqId) (error : APIError) :
  hoare (single_loop n) (handleError r error) (single_loop n).
Proof. unfold handleError. sl_calls. Qed.

Lemma sl_callMethod_fetched (r : ReqId) (k : Awaiter) (res : FetchResult) :
  hoare (single_loop (credit k)) (callMethod_fetched r k res) (single_loop 0).
Proof.
  unfold callMethod_fetched. sl;
    match goal with
    | |- hoare _ (handleError _ _) _ => apply sl_handleError
    | |- hoare _ (await _) _ =>
        destruct k; [by apply sl_await | apply sl_await_driver]
    | |- _ => sl_calls
    end.
Qed.

Lemma sl_callMethod_restart (r : ReqId) (k : Awaiter) :
  hoare (single_loop (credit k)) (callMethod_restart r k) (single_loop 0).
Proof. unfold callMethod_restart. sl_calls. Qed.

Lemma sl_work (h : Handler) (interval : Z) :
  hoare (single_loop 1) (work h interval) (single_loop 0).
Proof.
  intros st [H1 H2].
  destruct (suspended st) eqn:Hsusp;
    [|destruct (decide (queue st = [])) as [Hq|Hq]].
  - rewrite work_idle by by right. split; unfold loops in *; cbn; lia.
  - rewrite work_idle by by left. split; unfold loops in *; cbn; lia.
  - rewrite work_dispatch by done.
    destruct (invoke_next_once h interval st) as [Hl Hs].
    destruct (started st) eqn:Hst; [|specialize (H2 eq_refl); lia].
    split; [lia|]. by rewrite Hs.
Qed.

Lemma sl_resume (t : Task) (input : Input) (m : M unit) :
  resume t input = Some m ->
  hoare (single_loop (if drives_loop t then 1 else 0)) m (single_loop 0).
Proof.
  destruct t as [r k|r ms k|r ms|r error|ms|r sid|h interval], input;
    intros [= <-]; cbn [drives_loop].
  - destruct k as [|h interval];
      [apply (sl_callMethod_fetched r Detached)
      |apply (sl_callMethod_fetched r (ThenNext h interval))].
  - destruct k as [|h interval];
      [apply (sl_callMethod_restart r Detached)
      |apply (sl_callMethod_restart r (ThenNext h interval))].
  - unfold handleError_backoff. sl_calls.
  - unfold handleError_verification, handleError_catch. sl_calls.
  - unfold handleError_cooldown. sl_calls.
  - unfold handleError_retry. sl_calls.
  - apply sl_work.
Qed.

Lemma sl_enqueue (method : string) (params : gmap string string) :
  hoare (single_loop 0) (enqueue method params) (single_loop 0).
Proof.
  unfold enqueue, new_Request, callWithRequest. sl_calls.
Qed.

Lemma sl_step (ev : Event) (st st' : State) :
  step ev st = Some st' -> single_loop 0 st -> single_loop 0 st'.
Proof.
  destruct ev as [method params|i input]; cbn.
  - intros [= <-]. apply sl_enqueue.
  - destruct (tasks st !! i) as [t|] eqn:Ht; [|done]. cbn.
    destruct (resume t input) as [m|] eqn:Hm; [|done]. cbn.
    intros [= <-] [H1 H2]. apply (sl_resume _ _ _ Hm).
    unfold single_loop, loops in *. cbn.
    rewrite (loops_delete _ _ _ Ht) in H1, H2.
    destruct (drives_loop t);
      (split; [lia | intros H; specialize (H2 H); lia]).
Qed.

Lemma sl_run (evs : list Event) (st st' : State) :
  run evs st = Some st' -> single_loop 0 st -> single_loop 0 st'.
Proof.
  revert st. induction evs as [|ev evs IH]; intros st; cbn.
  - by intros [= <-].
  - destruct (step ev st) as [st1|] eqn:Hstep; [|done]. cbn.
    intros Hrun Hst. apply (IH _ Hrun). by apply (sl_step _ _ _ Hstep).
Qed.

End Loop.

(** ** The policies of the spec *)

Lemma callMethod_outcome {constants : Constants} {node_url : NodeUrl}
    (r : ReqId) (k : Awaiter) (st : State) :
  (exists url body timeout,
     callMethod r k st
     = Returns tt
         (with_tasks (tasks st ++ [AwaitFetch r k])
            (with_trace (trace st ++ [Fetch r url body timeout]) st))) \/
  (exists e, callMethod r k st = Throws e st).
Proof.
  unfold callMethod, request. exec.
  destruct (requests st !! r) as [q|]; cbn; [|right; eauto].
  destruct (valid_URL _ _); cbn; [left|right]; eauto.
Qed.

Lemma spec_workers_next_once {constants : Constants} {node_url : NodeUrl}
    (partition : Request -> string) (h : Handler) (interval : Z) (st : State) :
  loops (final (invoke (Workers := spec_workers partition) h interval st))
  <= S (loops st) /\
  started (final (invoke (Workers := spec_workers partition) h interval st))
  = started st.
Proof.
  assert (Hcall : forall r k rest,
            let st' := final (callMethod r k (with_queue rest st)) in
            loops st' <= S (loops st) /\
            started st' = started st /\
            (k = Detached -> loops st' = loops st)).
  { intros r k rest.
    destruct (callMethod_outcome r k (with_queue rest st))
      as [(url & body & timeout & ->)|(e & ->)]; unfold loops; cbn;
      rewrite ?drivers_snoc.
    - split; [destruct k; cbn; lia|]. split; [done|]. intros ->. cbn. lia.
    - split; [lia|]. split; [done|]. intros _. lia. }
  destruct h as [| | |name]; cbn.
  - unfold sequential_policy, shift, detach. exec.
    destruct (queue st) as [|r rest]; cbn; [split; [lia|done]|].
    destruct (Hcall r (ThenNext sequential interval) rest) as (H1 & H2 & _).
    by split.
  - unfold parallel_policy, shift, detach. exec.
    destruct (queue st) as [|r rest]; cbn; [split; [lia|done]|].
    destruct (Hcall r Detached rest) as (_ & H2 & H3).
    specialize (H3 eq_refl). unfold final in *.
    destruct (callMethod r Detached (with_queue rest st)); cbn;
      unfold loops in *; cbn in *; rewrite ?drivers_snoc; cbn;
      (split; [lia|done]).
  - unfold parallelSelected_policy, request. exec.
    destruct (queue st) as [|r rest]; cbn; [split; [lia|done]|].
    destruct (requests st !! r) as [q|]; cbn; [|split; [lia|done]].
    case_bool_decide; exec.
    + unfold loops. cbn. rewrite drivers_snoc. cbn. split; [lia|done].
    + destruct (Hcall r Detached rest) as (_ & H2 & H3).
      specialize (H3 eq_refl). unfold final in *.
      destruct (callMethod r Detached (with_queue rest st)); cbn;
        unfold loops in *; cbn in *; rewrite ?drivers_snoc; cbn;
        (split; [lia|done]).
  - unfold inherited_call. case_bool_decide; cbn; (split; [lia|done]).
Qed.

(** ** Requests that have left the scheduler *)

Section Retired.

Context {constants : Constants} {workers : Workers}.
Variables (r : ReqId) (n : nat).

(** The handlers dispatch requests of the queue only. *)
Hypothesis invoke_from_queue :
  forall (h : Handler) (interval : Z) (st : State),
    retired r n st -> retired r n (final (invoke h interval st)).

Lemma dispatches_emit (c : Call) (st : State) :
  (forall url body timeout, c <> Fetch r url body timeout) ->
  dispatches r (with_trace (trace st ++ [c]) st) = dispatches r st.
Proof.
  intros Hc. unfold dispatches, fetched. cbn. rewrite omap_app. cbn.
  destruct c as [r' url body timeout| | | | | |]; cbn; rewrite ?app_nil_r;
    try done.
  rewrite filter_app, length_app, filter_cons, filter_nil.
  case_decide; [|cbn; lia]. subst. by destruct (Hc url body timeout).
Qed.

Lemma rt_frame (f : State -> State) :
  (forall st, length (requests (f st)) = length (requests st)) ->
  (forall st, queue (f st) = queue st) ->
  (forall st, tasks (f st) = tasks st) ->
  (forall st, trace (f st) = trace st) ->
  hoare (retired r n) (modify f) (retired r n).
Proof.
  intros H1 H2 H3 H4 st. unfold modify, retired, dispatches, fetched. cbn.
  by rewrite H1, H2, H3, H4.
Qed.

Lemma rt_emit (c : Call) :
  (forall url body timeout, c <> Fetch r url body timeout) ->
  hoare (retired r n) (emit c) (retired r n).
Proof.
  intros Hc st (H1 & H2 & H3 & H4). unfold emit, modify. cbn.
  split; [done|]. split; [done|]. split; [done|].
  by rewrite dispatches_emit.
Qed.

Lemma rt_await (t : Task) :
  mentions r t = false -> hoare (retired r n) (await t) (retired r n).
Proof.
  intros Ht st (H1 & H2 & H3 & H4). unfold await, modify. cbn.
  split; [done|]. split; [done|]. split; [|done].
  apply Forall_app. split; [done|]. by constructor.
Qed.

Lemma rt_update (r' : ReqId) (f : Request -> Request) :
  hoare (retired r n) (update r' f) (retired r n).
Proof.
  intros st (H1 & H2 & H3 & H4). unfold update, modify. cbn.
  split; [|done]. cbn. by rewrite length_alter.
Qed.

Ltac rt_side := first [ done | by intros ? ? ].

Ltac rt :=
  repeat first
    [ hoare_struct rt_side
    | match goal with
      | |- hoare _ (emit _) _ => by apply rt_emit
      | |- hoare _ (update _ _) _ => apply rt_update
      | |- hoare _ (modify _) _ => by apply rt_frame
      | |- hoare _ (await _) _ =>
          by (apply rt_await; cbn; rewrite ?bool_decide_eq_false)
      end ].

Lemma rt_worker : hoare (retired r n) worker (retired r n).
Proof.
  unfold worker. rt. unfold work. rt. intros ? ?. by apply invoke_from_queue.
Qed.

Lemma rt_requeue (r' : ReqId) :
  r' <> r -> hoare (retired r n) (requeue r') (retired r n).
Proof.
  intros Hr. unfold requeue. rt; [|apply rt_worker].
  intros st (H1 & H2 & H3 & H4). unfold modify. cbn.
  split; [done|]. split; [|done]. cbn. apply not_elem_of_cons. by split.
Qed.

Lemma rt_reject (r' : ReqId) (e : Error) :
  hoare (retired r n) (reject r' e) (retired r n).
Proof. unfold reject. rt. Qed.

Lemma rt_resolve (r' : ReqId) (v : Value) :
  hoare (retired r n) (resolve r' v) (retired r n).
Proof. unfold resolve. rt. Qed.

Lemma rt_captcha_reject (c : nat) (e : Error) :
  hoare (retired r n) (captcha_reject c e) (retired r n).
Proof. unfold captcha_reject. rt. Qed.

Lemma rt_captcha_resolve (c : nat) :
  hoare (retired r n) (captcha_resolve c) (retired r n).
Proof. unfold captcha_resolve. rt. Qed.

Lemma rt_if_captcha (r' : ReqId) (f : nat -> M unit) :
  (forall c, hoare (retired r n) (f c) (retired r n)) ->
  hoare (retired r n) (if_captcha r' f) (retired r n).
Proof. intros Hf. unfold if_captcha. rt. apply Hf. Qed.

Ltac rt_calls :=
  rt;
  match goal with
  | |- hoare _ worker _ => apply rt_worker
  | |- hoare _ (requeue _) _ => by apply rt_requeue
  | |- hoare _ (reject _ _) _ => apply rt_reject
  | |- hoare _ (resolve _ _) _ => apply rt_resolve
  | |- hoare _ (captcha_reject _ _) _ => apply rt_captcha_reject
  | |- hoare _ (if_captcha _ captcha_resolve) _ =>
      apply rt_if_captcha; intros; apply rt_captcha_resolve
  | |- hoare _ (if_captcha _ _) _ =>
      apply rt_if_captcha; intros; apply rt_captcha_reject
  end.

Lemma rt_handleError (r' : ReqId) (error : APIError) :
  r' <> r -> hoare (retired r n) (handleError r' error) (retired r n).
Proof. intros Hr. unfold handleError. rt_calls. Qed.

Lemma rt_settled (k : Awaiter) : hoare (retired r n) (settled k) (retired r n).
Proof. unfold settled. rt. Qed.

Lemma rt_resume (t : Task) (input : Input) (m : M unit) :
  mentions r t = false ->
  resume t input = Some m ->
  hoare (retired r n) m (retired r n).
Proof.
  destruct t as [r' k|r' ms k|r' ms|r' error|ms|r' sid|h interval], input;
    intros Hr [= <-]; cbn in Hr; try apply bool_decide_eq_false in Hr.
  - unfold callMethod_fetched, addAttempt. rt;
      match goal with
      | |- hoare _ (handleError _ _) _ => by apply rt_handleError
      | |- hoare _ (settled _) _ => apply rt_settled
      | |- _ => rt_calls
      end.
  - unfold callMethod_restart. rt;
      match goal with
      | |- hoare _ (settled _) _ => apply rt_settled
      | |- _ => rt_calls
      end.
  - unfold handleError_backoff. rt_calls.
  - unfold handleError_verification, handleError_catch. rt_calls.
  - unfold handleError_cooldown. rt_calls.
  - unfold handleError_retry. rt_calls.
  - unfold work. rt. intros ? ?. by apply invoke_from_queue.
Qed.

Lemma rt_enqueue (method : string) (params : gmap string string) :
  hoare (retired r n) (enqueue method params) (retired r n).
Proof.
  intros st Hst.
  assert (E : enqueue method params st
              = (worker;; mret (length (requests st)))
                  (with_queue (queue st ++ [length (requests st)])
                     (with_requests
                        (requests st ++ [mkRequest method params 0 Pending None])
                        st))) by done.
  rewrite E. clear E.
  assert (hoare (retired r n) (worker;; mret (length (requests st)))
            (retired r n)) as H by (rt; apply rt_worker).
  apply H. destruct Hst as (H1 & H2 & H3 & H4).
  split; [cbn; rewrite length_app; lia|]. split; [|done].
  cbn. rewrite elem_of_app, list_elem_of_singleton. intros [?|?]; [done|lia].
Qed.

Lemma rt_step (ev : Event) (st st' : State) :
  step ev st = Some st' -> retired r n st -> retired r n st'.
Proof.
  destruct ev as [method params|i input]; cbn.
  - intros [= <-]. apply rt_enqueue.
  - destruct (tasks st !! i) as [t|] eqn:Ht; [|done]. cbn.
    destruct (resume t input) as [m|] eqn:Hm; [|done]. cbn.
    intros [= <-] (H1 & H2 & H3 & H4).
    apply (rt_resume t input m); [|done|].
    + eapply Forall_lookup_1 in H3; [exact H3 | exact Ht].
    + split; [done|]. split; [done|]. split; [|done].
      cbn. by apply Forall_delete.
Qed.

Lemma rt_run (evs : list Event) (st st' : State) :
  run evs st = Some st' -> retired r n st -> retired r n st'.
Proof.
  revert st. induction evs as [|ev evs IH]; intros st; cbn.
  - by intros [= <-].
  - destruct (step ev st) as [st1|] eqn:Hstep; [|done]. cbn.
    intros Hrun Hst. apply (IH _ Hrun). by apply (rt_step _ _ _ Hstep).
Qed.

End Retired.
Lemma spec_workers_from_queue {constants : Constants} {node_url : NodeUrl}
    (partition : Request -> string) (r : ReqId) (n : nat)
    (h : Handler) (interval : Z) (st : State) :
  retired r n st ->
  retired r n (final (invoke (Workers := spec_workers partition) h interval st)).
Proof.
  intros Hst. pose proof Hst as (H1 & H2 & H3 & H4).
  assert (Hcall : forall r' k rest,
            queue st = r' :: rest ->
            retired r n (final (callMethod r' k (with_queue rest st)))).
  { intros r' k rest Hq. rewrite Hq in H2.
    apply not_elem_of_cons in H2 as [Hne H2].
    destruct (callMethod_outcome r' k (with_queue rest st))
      as [(url & body & timeout & ->)|(e & ->)]; cbn.
    - split; [done|]. split; [done|]. split.
      + cbn. apply Forall_app. split; [done|]. constructor; [|done].
        cbn. by apply bool_decide_eq_false.
      + rewrite <- H4. apply (dispatches_emit r (Fetch r' url body timeout) st).
        by intros ? ? ? [= ->].
    - by repeat split. }
  destruct h as [| | |name]; cbn.
  - unfold sequential_policy, shift, detach. exec.
    destruct (queue st) as [|r' rest] eqn:Hq; cbn; [exact Hst|].
    by apply Hcall.
  - unfold parallel_policy, shift, detach. exec.
    destruct (queue st) as [|r' rest] eqn:Hq; cbn; [exact Hst|].
    apply (rt_await r n (Timeout parallel interval) eq_refl).
    by apply Hcall.
  - unfold parallelSelected_policy, request. exec.
    destruct (queue st) as [|r' rest] eqn:Hq; cbn; [exact Hst|].
    destruct (requests st !! r') as [q|]; cbn; [|exact Hst].
    case_bool_decide; exec.
    + by apply (rt_await r n (Timeout parallelSelected interval) eq_refl).
    + apply (rt_await r n (Timeout parallelSelected interval) eq_refl).
      by apply Hcall.
  - unfold inherited_call. case_bool_decide; exact Hst.
Qed.

(** ** Futures that the scheduler loop leaves alone *)

Section Futures.

Context {constants : Constants} {workers : Workers}.

(** The handlers settle nothing before they return. *)
Hypothesis invoke_settles_nothing :
  forall (h : Handler) (interval : Z) (st : State),
    requests (final (invoke h interval st)) = requests st.

Lemma worker_requests (st : State) :
  requests (final (worker st)) = requests st.
Proof.
  destruct (started st) eqn:Hst; [by rewrite worker_running|].
  unfold worker, getRequestHandler. exec. rewrite Hst. cbn.
  destruct (requestHandlers_get _) as [h|]; cbn; [|done].
  unfold work. exec.
  destruct ((length (queue st) =? 0)%nat || suspended st); [done|].
  apply (invoke_settles_nothing h _ (with_started true st)).
Qed.

Lemma requeue_requests (r : ReqId) (st : State) :
  requests (final (requeue r st)) = requests st.
Proof.
  unfold requeue. exec. apply (worker_requests (with_queue (r :: queue st) st)).
Qed.

End Futures.

Lemma spec_workers_settle_nothing {constants : Constants} {node_url : NodeUrl}
    (partition : Request -> string) (h : Handler) (interval : Z) (st : State) :
  requests (final (invoke (Workers := spec_workers partition) h interval st))
  = requests st.
Proof.
  assert (Hcall : forall r k rest,
            requests (final (callMethod r k (with_queue rest st)))
            = requests st).
  { intros r k rest.
    by destruct (callMethod_outcome r k (with_queue rest st))
      as [(url & body & timeout & ->)|(e & ->)]. }
  destruct h as [| | |name]; cbn.
  - unfold sequential_policy, shift, detach. exec.
    destruct (queue st) as [|r rest]; cbn; [done|]. apply Hcall.
  - unfold parallel_policy, shift, detach. exec.
    destruct (queue st) as [|r rest]; cbn; [done|]. apply Hcall.
  - unfold parallelSelected_policy, request. exec.
    destruct (queue st) as [|r rest]; cbn; [done|].
    destruct (requests st !! r) as [q|]; cbn; [|done].
    case_bool_decide; exec; [done|]. apply Hcall.
  - unfold inherited_call. by case_bool_decide.
Qed.

(** ** The event loop with the policies of the spec *)

Section Spec_policies.

Context {constants : Constants} {node_url : NodeUrl}.
Variable partition : Request -> string.

(** Every state that a client reaches has at most one scheduler loop, and
    none while [started] is false. *)
Lemma spec_single_loop (v : VK) (evs : list Event) (st : State) :
  run (workers := spec_workers partition) evs (constructor v) = Some st ->
  single_loop 0 st.
Proof.
  intros Hrun.
  apply (sl_run (workers := spec_workers partition)
           (spec_workers_next_once partition) evs _ _ Hrun).
  split; [cbn; lia | done].
Qed.

(** A request that has left the queue and the pending continuations stays
    out, and is not handed to the transport any more. *)
Lemma spec_retired_forever
    (r : ReqId) (n : nat) (evs : list Event) (st st' : State) :
  retired r n st ->
  run (workers := spec_workers partition) evs st = Some st' ->
  retired r n st'.
Proof.
  intros Hst Hrun.
  exact (rt_run (workers := spec_workers partition) r n
           (spec_workers_from_queue partition r n) evs _ _ Hrun Hst).
Qed.

(** The end of a backoff wait settles no result future. *)
Lemma spec_backoff_settles_nothing (r : ReqId) (st : State) :
  requests (final (handleError_backoff (workers := spec_workers partition) r st))
  = requests st.
Proof.
  unfold handleError_backoff. exec.
  apply (requeue_requests (workers := spec_workers partition)
           (spec_workers_settle_nothing partition) r
           (with_suspended false st)).
Qed.

End Spec_policies.

Section Theorems.

Context {constants : Constants} {workers : Workers}.

(** ** The base URL *)

(** C9: after [baseUrl = url], for any string [url], the getter returns a
    string that ends with '/': [url] itself when it already ends with '/',
    and [url] followed by '/' otherwise; the setter stores exactly the value
    it evaluates to, and touches nothing else. *)
Theorem C9_baseUrl_ends_with_slash (url : string) (st : State) :
  let normalized := if endsWith url "/" then url else url +:+ "/" in
  set_baseUrl url st = Returns normalized (with_baseUrl normalized st) /\
  get_baseUrl (final (set_baseUrl url st)) = normalized /\
  endsWith (get_baseUrl (final (set_baseUrl url st))) "/" = true.
Proof.
  assert (E : set_baseUrl url st
              = Returns (if endsWith url "/" then url else url +:+ "/")
                  (with_baseUrl
                     (if endsWith url "/" then url else url +:+ "/") st)).
  { unfold set_baseUrl. exec. by destruct (endsWith url "/"). }
  cbn zeta. rewrite E. split; [done|]. split; [done|].
  cbn. destruct (endsWith url "/") eqn:Hurl; [done|].
  apply endsWith_append.
Qed.

(** C10, on the code: the mode "constructor" is none of 'sequential',
    'parallel' and 'parallel_selected', yet [getRequestHandler] returns a
    handler for it, the member inherited from [Object.prototype], and
    nothing is thrown: the first [enqueue] of a client configured with this
    mode hands the queue to that member, with [started] true.  On the sample
    client the call returns and leaves the request in the queue for ever:
    no transport call is made and no tick is pending. *)
Theorem C10_inherited_mode_is_not_rejected
    (o : Options) (handler : bool) (method : string)
    (params : gmap string string) (st : State) :
  let v := mkVK (mkOptions (token o) (lang o) (Some "constructor")
                   (apiLimit o) (apiAttempts o) (apiWait o) (apiTimeout o))
             handler in
  getRequestHandler (Some "constructor") st
  = Returns (inherited "constructor") st /\
  enqueue method params (constructor v)
  = (invoke (inherited "constructor")
       (round (inject_Z MINIMUM_TIME_INTERVAL_API / inject_Z (apiLimit o)));;
     mret 0%nat)
      (mkState v [0%nat] true false BASE_URL_API
         [mkRequest method params 0 Pending None] [] [] []) /\
  @enqueue sample_constants sample_workers "users.get" ∅
    (sample_client (Some "constructor") false)
  = Returns 0%nat
      (mkState (sample_vk (Some "constructor") false) [0%nat] true false
         "https://api.vk.com/method/"
         [mkRequest "users.get" ∅ 0 Pending None] [] [] []).
Proof. split; [|split]; reflexivity. Qed.

(** C4: a call of [worker] while [started] is true returns at once and
    leaves the client as it was, so that [requeue] and [callWithRequest]
    only add the request to the queue: no handler is invoked and no tick is
    scheduled.  A call while [started] is false sets [started] before
    anything else: the first tick of the new loop, or the throw of
    [getRequestHandler], happens in the state where [started] is true.
    Hence, with handlers that call [next] at most once and leave [started]
    alone, at most one loop is alive in every state that a client reaches,
    and none while [started] is false. *)
Theorem C4_single_scheduler_loop (r : ReqId) (st : State) :
  (started st = true ->
   worker st = Returns tt st /\
   requeue r st = Returns tt (with_queue (r :: queue st) st) /\
   callWithRequest r st = Returns r (with_queue (queue st ++ [r]) st)) /\
  (started st = false ->
   started (with_started true st) = true /\
   worker st
   = (handler ← getRequestHandler (apiMode (options (vk st)));
      work handler
        (round (inject_Z MINIMUM_TIME_INTERVAL_API
                / inject_Z (apiLimit (options (vk st))))))
       (with_started true st)) /\
  ((forall (h : Handler) (interval : Z) (st0 : State),
      loops (final (invoke h interval st0)) <= S (loops st0) /\
      started (final (invoke h interval st0)) = started st0) ->
   forall (v : VK) (evs : list Event) (st' : State),
     run evs (constructor v) = Some st' ->
     loops st' <= 1 /\ (started st' = false -> loops st' = 0)).
Proof.
  split; [|split].
  - intros Hs. split; [by apply worker_running|].
    unfold requeue, callWithRequest. exec.
    by rewrite !worker_running by exact Hs.
  - intros Hs. split; [done|]. unfold worker. exec. by rewrite Hs.
  - intros Hinvoke v evs st' Hrun.
    assert (H0 : single_loop 0 (constructor v))
      by (split; [cbn; lia | done]).
    destruct (sl_run Hinvoke evs _ _ Hrun H0) as [H1 H2].
    split; [lia|]. intros H. specialize (H2 H). lia.
Qed.

(** C5: a tick that finds the queue empty or [suspended] true sets [started]
    to false and does nothing else: the queue keeps its requests, no call
    leaves the client (no transport call in particular) and no continuation
    is left pending, so the loop has stopped.  While [suspended] is true a
    call of [worker] cannot start it again: it changes [started] at most. *)
Theorem C5_idle_tick_stops_loop
    (handler : Handler) (interval : Z) (st : State) :
  queue st = [] \/ suspended st = true ->
  let st' := final (work handler interval st) in
  work handler interval st = Returns tt (with_started false st) /\
  started st' = false /\
  queue st' = queue st /\
  trace st' = trace st /\
  tasks st' = tasks st /\
  requests st' = requests st /\
  (suspended st = true ->
   exists b : bool, final (worker st) = with_started b st).
Proof.
  intros H. cbn zeta. rewrite (work_idle _ _ _ H).
  repeat split; try done. apply worker_suspended.
Qed.

(** ** The recovery engine *)

(** C2: on the rate-limit code, [handleError] only requeues the request
    when [suspended] is already true: the queue gets the request at its
    head, no wait is started and [suspended] stays true.  Otherwise it sets
    [suspended] and waits [MINIMUM_TIME_INTERVAL_API / apiLimit + 50]; when
    the wait is over it clears [suspended] and requeues the request.  None
    of these steps settles a future or makes a call; with handlers that
    settle nothing before they return, the requeue that ends the wait
    leaves the result futures as they were too. *)
Theorem C2_rate_limit_single_backoff
    (r : ReqId) (error : APIError) (st : State) :
  code error = TOO_MANY_REQUESTS ->
  let wait := (inject_Z MINIMUM_TIME_INTERVAL_API
               / inject_Z (apiLimit (options (vk st))) + 50)%Q in
  let st' := final (handleError r error st) in
  handleError r error st
  = (if suspended st then requeue r st
     else Returns tt
            (with_tasks (tasks st ++ [AwaitBackoff r wait])
               (with_suspended true st))) /\
  (suspended st = true ->
   queue st' = r :: queue st /\ tasks st' = tasks st /\ suspended st' = true) /\
  requests st' = requests st /\
  captchas st' = captchas st /\
  trace st' = trace st /\
  resume (AwaitBackoff r wait) Elapsed = Some (handleError_backoff r) /\
  (forall st1 : State,
     handleError_backoff r st1 = requeue r (with_suspended false st1) /\
     requests (with_suspended false st1) = requests st1) /\
  ((forall (h : Handler) (interval : Z) (st0 : State),
      requests (final (invoke h interval st0)) = requests st0) ->
   forall st1 : State,
     requests (final (handleError_backoff r st1)) = requests st1).
Proof.
  intros Hc. cbn zeta.
  assert (E : handleError r error st
              = (if suspended st then requeue r st
                 else Returns tt
                        (with_tasks
                           (tasks st
                            ++ [AwaitBackoff r
                                  (inject_Z MINIMUM_TIME_INTERVAL_API
                                   / inject_Z (apiLimit (options (vk st)))
                                   + 50)%Q])
                           (with_suspended true st)))).
  { unfold handleError. rewrite Hc, Z.eqb_refl. exec.
    by destruct (suspended st). }
  rewrite E. split; [done|].
  assert (Hlast : (forall (h : Handler) (interval : Z) (st0 : State),
                     requests (final (invoke h interval st0)) = requests st0) ->
                  forall st1 : State,
                    requests (final (handleError_backoff r st1))
                    = requests st1).
  { intros Hinvoke st1. unfold handleError_backoff. exec.
    apply (requeue_requests Hinvoke r (with_suspended false st1)). }
  destruct (suspended st) eqn:Hs.
  - destruct (requeue_suspended r st Hs) as [b ->]. by cbn.
  - cbn. by repeat split.
Qed.


(** C7: on the validation code, [handleError] sets [suspended] and waits
    for the re-authentication, with the error of the server kept in the
    continuation.  When the re-authentication fails, the result future is
    rejected with that error of the server, whatever the re-authentication
    threw, and a wait of 15000 ms starts with [suspended] unchanged; when it
    is over, [suspended] is cleared and [worker] is called, which starts the
    loop on the queue if it was not running. *)
Theorem C7_failed_verification
    (r : ReqId) (error : APIError) (ve : Error) (q : Request) (st : State) :
  requests st !! r = Some q ->
  code error = USER_VALIDATION_REQUIRED ->
  code error <> TOO_MANY_REQUESTS ->
  let stale :=
    match captcha q with
    | Some c => [RejectCaptcha c (ApiError error)]
    | None => []
    end in
  (suspended st = false ->
   handleError r error st
   = Returns tt
       (with_tasks (tasks st ++ [AwaitVerification r error])
          (with_trace
             (trace st ++ stale ++ [RunVerification (redirectUri error)])
             (with_suspended true
                (with_captchas
                   match captcha q with
                   | Some c =>
                       alter (settle (Rejected (ApiError error))) c
                         (captchas st)
                   | None => captchas st
                   end st))))) /\
  (forall st0 : State,
     handleError r error st = Returns tt st0 ->
     suspended st0 = true /\
     tasks st0 = tasks st ++ [AwaitVerification r error] /\
     result r st0 = Some (promise q)) /\
  resume (AwaitVerification r error) (VerificationDone (VerificationThrew ve))
  = Some (handleError_verification r error (VerificationThrew ve)) /\
  (forall (q1 : Request) (st1 : State),
     requests st1 !! r = Some q1 ->
     let st' :=
       final (handleError_verification r error (VerificationThrew ve) st1) in
     handleError_verification r error (VerificationThrew ve) st1
     = Returns tt st' /\
     result r st' = Some (settle (Rejected (ApiError error)) (promise q1)) /\
     trace st' = trace st1 ++ [RejectRequest r (ApiError error)] /\
     tasks st' = tasks st1 ++ [AwaitCooldown 15000] /\
     suspended st' = suspended st1 /\
     queue st' = queue st1 /\
     started st' = started st1) /\
  resume (AwaitCooldown 15000) Elapsed = Some handleError_cooldown /\
  (forall st2 : State,
     handleError_cooldown st2 = worker (with_suspended false st2) /\
     (started st2 = false -> queue st2 <> [] ->
      forall handler : Handler,
        requestHandlers_get (default "sequential" (apiMode (options (vk st2))))
        = Some handler ->
        handleError_cooldown st2
        = invoke handler
            (round (inject_Z MINIMUM_TIME_INTERVAL_API
                    / inject_Z (apiLimit (options (vk st2)))))
            (with_started true (with_suspended false st2)))).
Proof.
  intros Hq Hc Hn. cbn zeta.
  assert (E : handleError r error st
              = (if_captcha r (fun c => captcha_reject c (ApiError error));;
                 st ← get;
                 when (suspended st) (requeue r);;
                 modify (with_suspended true);;
                 emit (RunVerification (redirectUri error));;
                 await (AwaitVerification r error)) st).
  { unfold handleError.
    by rewrite (proj2 (Z.eqb_neq _ _) Hn), Hc, Z.eqb_refl. }
  rewrite E. clear E.
  split; [|split; [|split; [done|split; [|split; [done|]]]]].
  - intros Hs. exec. rewrite (if_captcha_found _ _ _ _ Hq).
    destruct (captcha q); unfold captcha_reject; exec; rewrite Hs; exec;
      by rewrite <- ?app_assoc.
  - intros st0. exec. rewrite (if_captcha_found _ _ _ _ Hq). unfold result.
    destruct (suspended st) eqn:Hs.
    + destruct (captcha q) as [c|]; unfold captcha_reject; exec;
        rewrite Hs; exec;
        match goal with
        | |- context [requeue r ?s] =>
            destruct (requeue_suspended r s Hs) as [b Hb];
            destruct (requeue r s); cbn in Hb; subst
        end; try done; intros [= <-]; cbn; by rewrite Hq.
    + destruct (captcha q) as [c|]; unfold captcha_reject; exec;
        rewrite Hs; exec; intros [= <-]; cbn; by rewrite Hq.
  - intros q1 st1 Hq1.
    unfold handleError_verification, handleError_catch, result.
    exec_settle. by rewrite list_lookup_alter_eq, Hq1.
  - intros st2. split; [done|].
    intros Hst Hne handler Hh.
    unfold handleError_cooldown, worker, getRequestHandler. exec.
    rewrite Hst, Hh. exec. by apply work_dispatch.
Qed.

(** ** The transport invoker *)

(** X15: when the transport call throws, the attempt counter of the request
    grows by one and the queue is left alone.  If the new counter is at most
    [apiAttempts], the only effect besides is a wait of [apiWait], after
    which the request is requeued: no future is settled and no call is
    made.  Otherwise the challenge future, if the request has one, and then
    the result future are rejected with what was thrown, and nothing is left
    pending for the request: only the awaiter of [callMethod], if any, goes
    on.  From then on, with handlers that dispatch requests of the queue
    only, a request that was neither in the queue nor held by another
    continuation never enters the queue and is never handed to the
    transport again, whatever happens to the client.  A request that is in
    the queue twice is outside that last part. *)
Theorem transport_failure_handling
    (r : ReqId) (k : Awaiter) (error : Error) (q : Request) (st : State) :
  requests st !! r = Some q ->
  let n := (attempts q + 1)%Z in
  let o := options (vk st) in
  let st' := final (callMethod_fetched r k (FetchThrew error) st) in
  (attempts <$> requests st' !! r) = Some n /\
  queue st' = queue st /\
  if (n <=? apiAttempts o)%Z then
    callMethod_fetched r k (FetchThrew error) st
    = Returns tt
        (with_tasks (tasks st ++ [AwaitRestart r (apiWait o) k])
           (with_requests (alter (with_attempts n) r (requests st)) st)) /\
    result r st' = Some (promise q) /\
    captchas st' = captchas st /\
    trace st' = trace st /\
    resume (AwaitRestart r (apiWait o) k) Elapsed
    = Some (callMethod_restart r k) /\
    callMethod_restart r k = (requeue r;; settled k)
  else
    trace st'
    = trace st ++ match captcha q with
                  | Some c => [RejectCaptcha c error]
                  | None => []
                  end ++ [RejectRequest r error] /\
    result r st' = Some (settle (Rejected error) (promise q)) /\
    captchas st'
    = match captcha q with
      | Some c => alter (settle (Rejected error)) c (captchas st)
      | None => captchas st
      end /\
    tasks st' = tasks (final (settled k st)) /\
    ((forall (h : Handler) (interval : Z) (st0 : State),
        retired r (dispatches r st) st0 ->
        retired r (dispatches r st) (final (invoke h interval st0))) ->
     (r ∉ queue st) ->
     Forall (fun t => mentions r t = false) (tasks st) ->
     forall (evs : list Event) (st'' : State),
       run evs st' = Some st'' ->
       (r ∉ queue st'') /\
       Forall (fun t => mentions r t = false) (tasks st'') /\
       dispatches r st'' = dispatches r st).
Proof.
  intros Hq. cbn zeta.
  assert (Hlen : r < length (requests st)) by by eapply lookup_lt_Some.
  assert (Hretire :
            hoare (retired r (dispatches r st))
              (if_captcha r (fun c => captcha_reject c error);;
               reject r error;;
               settled k)
              (retired r (dispatches r st))).
  { apply hoare_bind; [|done|intros ?; apply hoare_bind; [|done|intros ?]].
    - apply rt_if_captcha. intros c. apply rt_captcha_reject.
    - apply rt_reject.
    - apply rt_settled. }
  unfold callMethod_fetched. exec.
  rewrite (request_found _ _ _ Hq), (addAttempt_found _ _ _ Hq).
  destruct (attempts q + 1 <=? apiAttempts (options (vk st)))%Z eqn:Hle.
  - cbn. unfold result. cbn. by rewrite list_lookup_alter_eq, Hq.
  - assert (Hq' : alter (with_attempts (attempts q + 1)) r (requests st) !! r
                  = Some (with_attempts (attempts q + 1) q))
      by (by rewrite list_lookup_alter_eq, Hq).
    split; [|split; [|split; [|split; [|split; [|split]]]]].
    7:{ intros Hinvoke Hqueue Htasks evs st'' Hrun.
        eapply (rt_run r _ Hinvoke) in Hrun as (_ & H2 & H3 & H4); [done|].
        apply Hretire. split; [cbn; by rewrite length_alter|].
        by repeat split. }
    all: erewrite if_captcha_found by (cbn; exact Hq').
    all: cbn; unfold result.
    all: destruct (captcha q) as [c|]; destruct k; exec_settle.
    all: rewrite ?list_lookup_alter_eq, ?Hq; cbn.
    all: try done.
    all: by rewrite <- app_assoc.
Qed.

(** C8: when the call of a method whose name starts with "execute" returns
    a reply without [error], [callMethod] returns after resolving the result
    future with the pair of [response.response] and the list of
    [ExecuteError]s built from [response.execute_errors], the empty list
    when there are none; it makes no call that rejects the request. *)
Theorem C8_execute_partial_errors
    (r : ReqId) (k : Awaiter) (response : Response) (q : Request)
    (st : State) :
  requests st !! r = Some q ->
  startsWith (method q) "execute" = true ->
  resp_error response = None ->
  let composite :=
    VExecute (resp_response response)
      (mkExecuteError <$> default [] (resp_execute_errors response)) in
  let st' := final (callMethod_fetched r k (FetchReturned response) st) in
  callMethod_fetched r k (FetchReturned response) st = Returns tt st' /\
  result r st' = Some (settle (Resolved composite) (promise q)) /\
  trace st'
  = trace st ++ match captcha q with
                | Some c => [ResolveCaptcha c]
                | None => []
                end ++ [ResolveRequest r composite] /\
  (forall e : Error,
     RejectRequest r e ∉ drop (length (trace st)) (trace st')) /\
  queue st' = queue st /\
  tasks st' = tasks (final (settled k st)).
Proof.
  intros Hq Hm He. cbn zeta.
  unfold callMethod_fetched. exec.
  rewrite (request_found _ _ _ Hq), He, Hm, (if_captcha_found _ _ _ _ Hq).
  unfold result.
  destruct (captcha q) as [c|]; destruct k; exec_settle.
  all: rewrite ?list_lookup_alter_eq, ?Hq, <- ?app_assoc, ?drop_app_length; cbn.
  all: repeat split; try done.
  all: intros e Hin.
  all: repeat (apply elem_of_cons in Hin as [Hin | Hin]; [discriminate|]).
  all: by apply elem_of_nil in Hin.
Qed.

End Theorems.

(** ** The theorems at the sample client *)

Lemma C2_rate_limit_single_backoff_witness :
  code too_many_requests = @TOO_MANY_REQUESTS sample_constants /\
  tasks (final (@handleError sample_constants sample_workers 0
                  too_many_requests (sample_in_flight false)))
  = [AwaitFetch 0 Detached; Timeout parallel 378;
     AwaitBackoff 0 (inject_Z 1133 / inject_Z 3 + 50)%Q] /\
  requests (final (@handleError sample_constants sample_workers 0
                     too_many_requests (sample_in_flight false)))
  = [sample_request] /\
  requests (final (@handleError_backoff sample_constants sample_workers 0
                     (sample_idle false)))
  = [sample_request].
Proof.
  split; [reflexivity|].
  destruct (@C2_rate_limit_single_backoff sample_constants sample_workers 0
              too_many_requests (sample_in_flight false) eq_refl)
    as (E & _ & Hreq & _ & _ & _ & _ & Hlast).
  split; [by rewrite E|]. split; [exact Hreq|].
  exact (Hlast (spec_workers_settle_nothing _) (sample_idle false)).
Defined.

Lemma transport_failure_handling_witness :
  requests sample_exhausted !! 0
  = Some (mkRequest "users.get" ∅ 3 Pending None) /\
  (0 ∉ queue sample_exhausted) /\
  Forall (fun t => mentions 0 t = false) (tasks sample_exhausted) /\
  dispatches 0 sample_exhausted = 4 /\
  result 0
    (final (@callMethod_fetched sample_constants sample_workers 0 Detached
              (FetchThrew (FetchError "ETIMEDOUT")) sample_exhausted))
  = Some (Rejected (FetchError "ETIMEDOUT")) /\
  forall (evs : list Event) (st : State),
    @run sample_constants sample_workers evs
      (final (@callMethod_fetched sample_constants sample_workers 0 Detached
                (FetchThrew (FetchError "ETIMEDOUT")) sample_exhausted))
    = Some st ->
    dispatches 0 st = 4.
Proof.
  assert (Hrequest : requests sample_exhausted !! 0
                     = Some (mkRequest "users.get" ∅ 3 Pending None))
    by (vm_compute; reflexivity).
  assert (Hqueue : 0 ∉ queue sample_exhausted)
    by (vm_compute; apply not_elem_of_nil).
  assert (Htasks : Forall (fun t => mentions 0 t = false)
                     (tasks sample_exhausted))
    by (vm_compute; repeat constructor).
  assert (Hfour : dispatches 0 sample_exhausted = 4)
    by (vm_compute; reflexivity).
  pose proof (@transport_failure_handling sample_constants sample_workers 0
                Detached
                (FetchError "ETIMEDOUT")
                (mkRequest "users.get" ∅ 3 Pending None) sample_exhausted
                Hrequest) as (_ & _ & _ & Hresult & _ & _ & Hnever).
  split; [exact Hrequest|]. split; [exact Hqueue|]. split; [exact Htasks|].
  split; [exact Hfour|]. split; [exact Hresult|].
  intros evs st Hrun. rewrite <- Hfour.
  exact (proj2 (proj2
    (Hnever (spec_workers_from_queue _ 0 (dispatches 0 sample_exhausted))
       Hqueue Htasks evs st Hrun))).
Defined.

Lemma C4_single_scheduler_loop_witness :
  started (sample_in_flight false) = true /\
  @requeue sample_constants sample_workers 0 (sample_in_flight false)
  = Returns tt (with_queue [0] (sample_in_flight false)) /\
  started (sample_idle false) = false /\
  (forall (h : Handler) (interval : Z) (st : State),
     loops (final (invoke (Workers := sample_workers) h interval st))
     <= S (loops st) /\
     started (final (invoke (Workers := sample_workers) h interval st))
     = started st) /\
  @run sample_constants sample_workers [Enqueue "users.get" ∅]
    (@constructor sample_constants (sample_vk (Some "parallel") false))
  = Some (sample_in_flight false) /\
  loops (sample_in_flight false) <= 1.
Proof.
  pose proof (@C4_single_scheduler_loop sample_constants sample_workers 0
                (sample_in_flight false)) as (Hrunning & _ & Hloops).
  pose proof (spec_workers_next_once (constants := sample_constants)
                (node_url := sample_node_url)
                (fun q => default "" (params q !! "peer_id"))) as Hinvoke.
  split; [reflexivity|]. split; [exact (proj1 (proj2 (Hrunning eq_refl)))|].
  split; [reflexivity|]. split; [exact Hinvoke|]. split; [reflexivity|].
  exact (proj1 (Hloops Hinvoke (sample_vk (Some "parallel") false)
                  [Enqueue "users.get" ∅] (sample_in_flight false) eq_refl)).
Defined.

Lemma C5_idle_tick_stops_loop_witness :
  (queue sample_suspended = [] \/ suspended sample_suspended = true) /\
  suspended sample_suspended = true /\
  tasks sample_suspended
  = [Timeout parallel 378; AwaitBackoff 0 (inject_Z 1133 / inject_Z 3 + 50)%Q] /\
  work (workers := sample_workers) parallel 378
    (with_tasks (delete 0 (tasks sample_suspended)) sample_suspended)
  = Returns tt
      (with_started false
         (with_tasks (delete 0 (tasks sample_suspended)) sample_suspended)) /\
  exists b : bool,
    final (@worker sample_constants sample_workers sample_suspended)
    = with_started b sample_suspended.
Proof.
  split; [right; reflexivity|]. split; [reflexivity|]. split; [reflexivity|].
  split.
  - exact (proj1 (C5_idle_tick_stops_loop
                    (constants := sample_constants)
                    (workers := sample_workers) parallel 378
                    (with_tasks (delete 0 (tasks sample_suspended))
                       sample_suspended)
                    (or_intror eq_refl))).
  - exact (proj2 (proj2 (proj2 (proj2 (proj2 (proj2
             (C5_idle_tick_stops_loop
                (constants := sample_constants)
                (workers := sample_workers) parallel 378 sample_suspended
                (or_intror eq_refl))))))) eq_refl).
Defined.


Lemma C7_failed_verification_witness :
  requests (sample_in_flight false) !! 0 = Some sample_request /\
  code validation_required = @USER_VALIDATION_REQUIRED sample_constants /\
  code validation_required <> @TOO_MANY_REQUESTS sample_constants /\
  suspended (sample_in_flight false) = false /\
  tasks (final (@handleError sample_constants sample_workers 0
                  validation_required (sample_in_flight false)))
  = [AwaitFetch 0 Detached; Timeout parallel 378;
     AwaitVerification 0 validation_required] /\
  result 0
    (final (@handleError_verification sample_constants sample_workers 0
              validation_required
              (VerificationThrew (VerificationError "cancelled"))
              (sample_in_flight false)))
  = Some (Rejected (ApiError validation_required)) /\
  @resume sample_constants sample_workers (AwaitCooldown 15000) Elapsed
  = Some (@handleError_cooldown sample_constants sample_workers).
Proof.
  assert (H6 : code validation_required <> @TOO_MANY_REQUESTS sample_constants)
    by (cbn; lia).
  pose proof (@C7_failed_verification sample_constants sample_workers 0
                validation_required (VerificationError "cancelled")
                sample_request (sample_in_flight false) eq_refl eq_refl H6)
    as (Hfirst & _ & _ & Hthrew & Hcooldown & _).
  split; [reflexivity|]. split; [reflexivity|]. split; [exact H6|].
  split; [reflexivity|].
  split; [by rewrite (Hfirst eq_refl)|].
  split; [|exact Hcooldown].
  exact (proj1 (proj2 (Hthrew sample_request (sample_in_flight false) eq_refl))).
Defined.

Lemma C8_execute_partial_errors_witness :
  requests sample_execute !! 0 = Some (mkRequest "execute" ∅ 0 Pending None) /\
  startsWith "execute" "execute" = true /\
  result 0
    (final (@callMethod_fetched sample_constants sample_workers 0 Detached
              (FetchReturned
                 (mkResponse None (Some (JArr [JNum 1; JBool false]))
                    (Some [JStr "Access denied"])))
              sample_execute))
  = Some (Resolved
            (VExecute (Some (JArr [JNum 1; JBool false]))
               [mkExecuteError (JStr "Access denied")])).
Proof.
  split; [reflexivity|]. split; [reflexivity|].
  exact (proj1 (proj2
    (@C8_execute_partial_errors sample_constants sample_workers 0 Detached
       (mkResponse None (Some (JArr [JNum 1; JBool false]))
          (Some [JStr "Access denied"]))
       (mkRequest "execute" ∅ 0 Pending None) sample_execute
       eq_refl eq_refl eq_refl))).
Defined.

(** ** A request in the queue twice *)

Section Duplicates.

Context {constants : Constants} {workers : Workers}.

(** On the validation code with [suspended] already true, the request is
    put at the head of the queue and the re-authentication is started all
    the same; when it succeeds, the request is put at the head once more. *)
Lemma validation_requeues_twice
    (r : ReqId) (error : APIError) (q : Request) (t : string) (st : State) :
  requests st !! r = Some q ->
  code error = USER_VALIDATION_REQUIRED ->
  code error <> TOO_MANY_REQUESTS ->
  suspended st = true ->
  started st = true ->
  exists st1 : State,
    handleError r error st = Returns tt st1 /\
    queue st1 = r :: queue st /\
    started st1 = true /\
    last (tasks st1) = Some (AwaitVerification r error) /\
    queue (final (handleError_verification r error (Verified t) st1))
    = r :: r :: queue st.
Proof.
  intros Hq Hc Hn Hs Hst.
  assert (E : handleError r error st
              = Returns tt
                  (with_tasks (tasks st ++ [AwaitVerification r error])
                     (with_trace
                        (trace st
                         ++ match captcha q with
                            | Some c => [RejectCaptcha c (ApiError error)]
                            | None => []
                            end ++ [RunVerification (redirectUri error)])
                        (with_queue (r :: queue st)
                           (with_captchas
                              match captcha q with
                              | Some c =>
                                  alter (settle (Rejected (ApiError error))) c
                                    (captchas st)
                              | None => captchas st
                              end st))))).
  { unfold handleError.
    rewrite (proj2 (Z.eqb_neq _ _) Hn), Hc, Z.eqb_refl. exec.
    rewrite (if_captcha_found _ _ _ _ Hq).
    destruct (captcha q); unfold captcha_reject, requeue; exec;
      rewrite Hs; exec; rewrite worker_running by exact Hst; cbn;
      rewrite <- ?app_assoc; destruct st; cbn in *; by subst. }
  eexists. split; [exact E|]. split; [done|]. split; [done|].
  split; [cbn; by rewrite last_snoc|].
  unfold handleError_verification, requeue. exec.
  by rewrite worker_running by exact Hst.
Qed.

End Duplicates.

(** C1, on the code: in [duplicating_run] the request "messages.send" ends
    up in the queue twice.  In [duplicating_run_idle], where the loop had
    stopped, the second insertion restarts the loop, which hands the request
    to the transport invoker while the queue still holds it, and the next
    tick hands it over again: two calls of the same request are then in
    flight. *)
Theorem C1_validation_recovery_requeues_twice :
  let run := @run sample_constants sample_workers in
  let client := sample_client (Some "parallel") false in
  (queue <$> run duplicating_run client) = Some [1; 1] /\
  (occurrences 1 <$> run duplicating_run client) = Some 2 /\
  ((fun st => (queue st, in_flight st)) <$>
   run (take 7 duplicating_run_idle) client) = Some ([1], [1]) /\
  ((fun st => (queue st, in_flight st, fetched st)) <$>
   run duplicating_run_idle client) = Some ([], [1; 1], [0; 1; 1; 1]).
Proof. by vm_compute. Qed.

(** C3, on the code: a request that was rejected for a failure of the
    transport is handed to the transport again.  On a client that retries
    no call, [redispatching_run] leaves the request "messages.send" in the
    queue twice, by the two insertions of [duplicating_run]; the call made
    for the first copy fails and the request is rejected with the error of
    the transport, its attempts being used up; the second copy is still in
    the queue, and the next tick makes a third call for the request. *)
Theorem C3_rejected_request_is_dispatched_again :
  let run := @run sample_constants sample_workers in
  let client := @constructor sample_constants sample_vk_no_retry in
  ((fun st => (queue st, dispatches 1 st)) <$>
   run (take 7 redispatching_run) client) = Some ([1], 2) /\
  ((fun st =>
      (queue st, attempts <$> requests st !! 1, result 1 st,
       dispatches 1 st)) <$>
   run (take 8 redispatching_run) client)
  = Some ([1], Some 1%Z, Some (Rejected (FetchError "ETIMEDOUT")), 2) /\
  ((fun st => (queue st, result 1 st, in_flight st, dispatches 1 st)) <$>
   run redispatching_run client)
  = Some ([], Some (Rejected (FetchError "ETIMEDOUT")), [1], 3).
Proof. by vm_compute. Qed.

(** * Further properties *)

(** ** The call that [callMethod] sends *)

Section Call_properties.

Context {constants : Constants} {node_url : NodeUrl} {workers : Workers}.

Lemma callMethod_found (r : ReqId) (k : Awaiter) (q : Request) (st : State) :
  requests st !! r = Some q ->
  valid_URL (method q) (baseUrl st) = true ->
  callMethod r k st
  = Returns tt
      (with_tasks (tasks st ++ [AwaitFetch r k])
         (with_trace
            (trace st
             ++ [Fetch r (mkURL (method q) (baseUrl st))
                   match lang (options (vk st)) with
                   | Some l =>
                       <["lang" := l]>
                         (params q
                          ∪ {[ "access_token" := token (options (vk st));
                               "v" := API_VERSION ]})
                   | None =>
                       params q
                       ∪ {[ "access_token" := token (options (vk st));
                            "v" := API_VERSION ]}
                   end
                   (apiTimeout (options (vk st)))])
            st)).
Proof.
  intros Hq Hv. unfold callMethod. exec.
  rewrite (request_found _ _ _ Hq). unfold get_baseUrl. by rewrite Hv.
Qed.

(** When [new URL] throws, [callMethod] throws with it: nothing is sent,
    nothing is settled and nothing is left pending. *)
Lemma callMethod_invalid (r : ReqId) (k : Awaiter) (q : Request) (st : State) :
  requests st !! r = Some q ->
  valid_URL (method q) (baseUrl st) = false ->
  callMethod r k st = Throws (TypeError "Invalid URL") st.
Proof.
  intros Hq Hv. unfold callMethod. exec.
  rewrite (request_found _ _ _ Hq). unfold get_baseUrl. by rewrite Hv.
Qed.

(** X1: [callMethod] first builds the URL of the method against the base
    URL of the moment.  When [new URL] returns, it makes one [fetch] to that
    URL and waits for it: in the body the params of the request win over the
    token and the version of the client, while [options.lang], unless it is
    [null], wins over a [lang] of the request; every other key of the body
    is the request's, and nothing else changes.  When [new URL] throws,
    [callMethod] throws before the [try] block: no [fetch] is made, the
    request is neither settled nor requeued and nothing is left pending. *)
Theorem callMethod_request_body
    (r : ReqId) (k : Awaiter) (q : Request) (st : State) :
  requests st !! r = Some q ->
  if valid_URL (method q) (baseUrl st) then
    exists body : gmap string string,
      callMethod r k st
      = Returns tt
          (with_tasks (tasks st ++ [AwaitFetch r k])
             (with_trace
                (trace st
                 ++ [Fetch r (mkURL (method q) (baseUrl st)) body
                       (apiTimeout (options (vk st)))])
                st)) /\
      body !! "access_token"
      = Some (default (token (options (vk st)))
                (params q !! "access_token")) /\
      body !! "v" = Some (default API_VERSION (params q !! "v")) /\
      body !! "lang"
      = match lang (options (vk st)) with
        | Some l => Some l
        | None => params q !! "lang"
        end /\
      forall key : string,
        key <> "access_token" -> key <> "v" -> key <> "lang" ->
        body !! key = params q !! key
  else
    callMethod r k st = Throws (TypeError "Invalid URL") st.
Proof.
  intros Hq. destruct (valid_URL _ _) eqn:Hv;
    [|by apply (callMethod_invalid r k q)].
  rewrite (callMethod_found _ _ _ _ Hq Hv).
  eexists. split; [reflexivity|].
  assert (Hunion : forall key : string,
            (params q ∪ {[ "access_token" := token (options (vk st));
                           "v" := API_VERSION ]}) !! key
            = match params q !! key with
              | Some x => Some x
              | None =>
                  ({[ "access_token" := token (options (vk st));
                      "v" := API_VERSION ]} : gmap string string) !! key
              end).
  { intros key. rewrite lookup_union.
    by destruct (params q !! key), (_ !! key). }
  destruct (lang (options (vk st))) as [l|].
  - split; [|split; [|split]].
    + rewrite lookup_insert_ne by done. rewrite Hunion.
      by destruct (params q !! "access_token").
    + rewrite lookup_insert_ne by done. rewrite Hunion.
      by destruct (params q !! "v").
    + by rewrite lookup_insert_eq.
    + intros key H1 H2 H3. rewrite lookup_insert_ne by done.
      rewrite Hunion. destruct (params q !! key); [done|].
      rewrite lookup_insert_ne by done. by rewrite lookup_singleton_ne.
  - split; [|split; [|split]].
    + rewrite Hunion. by destruct (params q !! "access_token").
    + rewrite Hunion. by destruct (params q !! "v").
    + rewrite Hunion. by destruct (params q !! "lang").
    + intros key H1 H2 H3. rewrite Hunion.
      destruct (params q !! key); [done|].
      rewrite lookup_insert_ne by done. by rewrite lookup_singleton_ne.
Qed.

(** X2: after [baseUrl = url], for any string [url], the next [callMethod]
    builds its URL against a base that ends with '/': [url] itself, or [url]
    followed by '/'.  When [new URL] returns, the [fetch] goes to the method
    resolved against that base; when it throws, as it does for the [url]
    that is empty, [callMethod] throws and no [fetch] is made. *)
Theorem callMethod_after_set_baseUrl
    (url : string) (r : ReqId) (k : Awaiter) (q : Request) (st : State) :
  requests st !! r = Some q ->
  let base := if endsWith url "/" then url else url +:+ "/" in
  let st1 := final (set_baseUrl url st) in
  endsWith base "/" = true /\
  baseUrl st1 = base /\
  if valid_URL (method q) base then
    exists (body : gmap string string) (timeout : Z),
      last (trace (final (callMethod r k st1)))
      = Some (Fetch r (mkURL (method q) base) body timeout)
  else
    callMethod r k st1 = Throws (TypeError "Invalid URL") st1 /\
    trace st1 = trace st.
Proof.
  intros Hq. cbn zeta.
  assert (E : set_baseUrl url st
              = Returns (if endsWith url "/" then url else url +:+ "/")
                  (with_baseUrl
                     (if endsWith url "/" then url else url +:+ "/") st)).
  { unfold set_baseUrl. exec. by destruct (endsWith url "/"). }
  rewrite E. cbn [final].
  split.
  { destruct (endsWith url "/") eqn:Hurl; [done|]. apply endsWith_append. }
  split; [done|].
  destruct (valid_URL _ _) eqn:Hv.
  - rewrite (callMethod_found r k q) by done.
    eexists _, _. cbn. by rewrite last_snoc.
  - split; [|done]. by apply (callMethod_invalid r k q).
Qed.

(** X3: when the call of a method whose name does not start with "execute"
    returns a reply without [error], the challenge future of the request, if
    it has one, is resolved, and then the result future is resolved with
    [response.response] when the reply has that member and with the whole
    reply otherwise.  The attempts, the queue and [suspended] are left alone
    and nothing is left pending for the request. *)
Theorem callMethod_plain_result
    (r : ReqId) (k : Awaiter) (response : Response) (q : Request)
    (st : State) :
  requests st !! r = Some q ->
  startsWith (method q) "execute" = false ->
  resp_error response = None ->
  let value :=
    match resp_response response with
    | Some j => VPayload j
    | None => VEnvelope response
    end in
  let st' := final (callMethod_fetched r k (FetchReturned response) st) in
  callMethod_fetched r k (FetchReturned response) st = Returns tt st' /\
  requests st' !! r
  = Some (with_promise (settle (Resolved value) (promise q)) q) /\
  captchas st'
  = match captcha q with
    | Some c => alter (settle (Resolved VUndefined)) c (captchas st)
    | None => captchas st
    end /\
  trace st'
  = trace st ++ match captcha q with
                | Some c => [ResolveCaptcha c]
                | None => []
                end ++ [ResolveRequest r value] /\
  queue st' = queue st /\
  suspended st' = suspended st /\
  tasks st' = tasks (final (settled k st)).
Proof.
  intros Hq Hm He. cbn zeta.
  unfold callMethod_fetched. exec.
  rewrite (request_found _ _ _ Hq), He, Hm, (if_captcha_found _ _ _ _ Hq).
  destruct (captcha q) as [c|]; destruct k; exec_settle.
  all: rewrite ?list_lookup_alter_eq, ?Hq, <- ?app_assoc; cbn.
  all: by repeat split.
Qed.

(** X4: a reply with an [error] whose code is none of the three that the
    engine recovers from ends the request: the challenge future, if any, and
    then the result future are rejected with the [APIError], and nothing is
    requeued, suspended or left pending for the request. *)
Theorem callMethod_application_error
    (r : ReqId) (k : Awaiter) (response : Response) (error : APIError)
    (q : Request) (st : State) :
  requests st !! r = Some q ->
  resp_error response = Some error ->
  code error <> TOO_MANY_REQUESTS ->
  code error <> USER_VALIDATION_REQUIRED ->
  code error <> CAPTCHA_REQUIRED ->
  let st' := final (callMethod_fetched r k (FetchReturned response) st) in
  callMethod_fetched r k (FetchReturned response) st = Returns tt st' /\
  requests st' !! r
  = Some (with_promise (settle (Rejected (ApiError error)) (promise q)) q) /\
  captchas st'
  = match captcha q with
    | Some c => alter (settle (Rejected (ApiError error))) c (captchas st)
    | None => captchas st
    end /\
  trace st'
  = trace st ++ match captcha q with
                | Some c => [RejectCaptcha c (ApiError error)]
                | None => []
                end ++ [RejectRequest r (ApiError error)] /\
  queue st' = queue st /\
  suspended st' = suspended st /\
  started st' = started st /\
  tasks st' = tasks (final (settled k st)).
Proof.
  intros Hq He H1 H2 H3. cbn zeta.
  unfold callMethod_fetched, handleError. exec.
  rewrite (request_found _ _ _ Hq), He.
  rewrite (proj2 (Z.eqb_neq _ _) H1), (proj2 (Z.eqb_neq _ _) H2),
    (proj2 (Z.eqb_neq _ _) H3).
  exec. rewrite (if_captcha_found _ _ _ _ Hq).
  destruct (captcha q) as [c|]; destruct k; exec_settle.
  all: rewrite ?list_lookup_alter_eq, ?Hq, <- ?app_assoc; cbn.
  all: by repeat split.
Qed.

End Call_properties.

(** ** More of the recovery engine *)

Section Recovery_properties.

Context {constants : Constants} {workers : Workers}.

(** X5: when the re-authentication succeeds, [vk.setToken] is called with
    the new token, [suspended] is cleared and the request is put at the head
    of the queue.  With the loop running nothing else happens.  With the
    loop stopped, [worker] starts it inside the [try] block: the handler of
    the mode is called at once on that queue, and what it throws, like the
    error of a mode that is no policy, is taken for a failure of the
    re-authentication: the request is rejected with the error of the server
    and the wait of 15 seconds starts. *)
Theorem handleError_verification_success
    (r : ReqId) (error : APIError) (new_token : string) (st : State) :
  let st1 :=
    with_queue (r :: queue st)
      (with_suspended false (with_vk (setToken new_token (vk st)) st)) in
  let interval :=
    round (inject_Z MINIMUM_TIME_INTERVAL_API
           / inject_Z (apiLimit (options (vk st1)))) in
  (started st = true ->
   handleError_verification r error (Verified new_token) st
   = Returns tt st1) /\
  (started st = false ->
   forall h : Handler,
     requestHandlers_get (default "sequential" (apiMode (options (vk st1))))
     = Some h ->
     handleError_verification r error (Verified new_token) st
     = try_catch (invoke h interval) (fun _ => handleError_catch r error)
         (with_started true st1)) /\
  (started st = false ->
   requestHandlers_get (default "sequential" (apiMode (options (vk st1))))
   = None ->
   handleError_verification r error (Verified new_token) st
   = Returns tt
       (with_tasks (tasks st ++ [AwaitCooldown 15000])
          (with_requests
             (alter
                (fun q =>
                   with_promise
                     (settle (Rejected (ApiError error)) (promise q)) q)
                r (requests st))
             (with_trace (trace st ++ [RejectRequest r (ApiError error)])
                (with_started true st1))))).
Proof.
  cbn zeta. split; [|split].
  - intros Hs. unfold handleError_verification, requeue. exec.
    by rewrite worker_running.
  - intros Hs h Hh.
    unfold handleError_verification, requeue, worker, getRequestHandler.
    exec. rewrite Hs. exec. cbn in Hh. rewrite Hh. cbn.
    by rewrite work_dispatch.
  - intros Hs Hh.
    unfold handleError_verification, requeue, worker, getRequestHandler.
    exec. rewrite Hs. exec. cbn in Hh. rewrite Hh. by exec_settle.
Qed.

(** X6: when the captcha handler answers with an [Error], the request is
    rejected with it, and so is the promise that the retry callback returns;
    the request keeps its params and is not requeued, and nothing is left
    pending. *)
Theorem handleError_retry_error
    (r : ReqId) (sid : string) (e : Error) (q : Request) (st : State) :
  requests st !! r = Some q ->
  let st' := final (handleError_retry r sid (KeyIsError e) st) in
  handleError_retry r sid (KeyIsError e) st = Returns tt st' /\
  requests st' !! r = Some (with_promise (settle (Rejected e) (promise q)) q) /\
  captchas st' = captchas st ++ [Rejected e] /\
  trace st'
  = trace st ++ [RejectRequest r e; RejectCaptcha (length (captchas st)) e] /\
  queue st' = queue st /\
  tasks st' = tasks st /\
  suspended st' = suspended st.
Proof.
  intros Hq. cbn zeta. unfold handleError_retry. exec_settle.
  rewrite list_lookup_alter_eq, Hq, <- app_assoc. cbn.
  repeat split; try done.
  induction (captchas st) as [|f l IH]; cbn; [done|]. by rewrite IH.
Qed.

End Recovery_properties.

(** ** Entering the queue *)

Lemma prefix_append (s t : string) : String.prefix s (s +:+ t) = true.
Proof.
  induction s as [|a s IH]; [by destruct t|].
  change (String a s +:+ t) with (String a (s +:+ t)).
  change (match Ascii.ascii_dec a a with
          | left _ => String.prefix s (s +:+ t)
          | right _ => false
          end = true).
  destruct (Ascii.ascii_dec a a) as [_|Ha]; [exact IH|by destruct Ha].
Qed.

Section Queue_properties.

Context {constants : Constants} {workers : Workers}.

(** X7: while the loop is running, and while [suspended] is true, [enqueue]
    only puts the new request at the tail of the queue: the request gets the
    next free place of the heap, no attempts, a pending result and no
    challenge; nothing is dispatched, and the requests that were waiting
    keep their places in front of it. *)
Theorem enqueue_only_queues
    (method : string) (params : gmap string string) (st : State) :
  started st = true \/ suspended st = true ->
  let r := length (requests st) in
  let st' := final (enqueue method params st) in
  requests st' = requests st ++ [mkRequest method params 0 Pending None] /\
  requests st' !! r = Some (mkRequest method params 0 Pending None) /\
  queue st' = queue st ++ [r] /\
  tasks st' = tasks st /\
  trace st' = trace st /\
  suspended st' = suspended st /\
  (started st = true ->
   enqueue method params st = Returns r st').
Proof.
  intros H. cbn zeta.
  assert (E : enqueue method params st
              = (worker;; mret (length (requests st)))
                  (with_queue (queue st ++ [length (requests st)])
                     (with_requests
                        (requests st
                         ++ [mkRequest method params 0 Pending None])
                        st))) by done.
  rewrite E. clear E. exec.
  match goal with |- context [worker ?s] => set (st1 := s) end.
  assert (Hfinal : exists b, final (worker st1) = with_started b st1).
  { destruct H as [H|H].
    - exists true. rewrite worker_running by exact H. cbn.
      subst st1. destruct st; cbn in *; by subst.
    - by apply worker_suspended. }
  destruct Hfinal as [b Hb].
  assert (Hr : (requests st ++ [mkRequest method params 0 Pending None])
               !! length (requests st)
               = Some (mkRequest method params 0 Pending None))
    by (by rewrite lookup_app_r, Nat.sub_diag).
  destruct (worker st1) as [[] st2|e st2] eqn:Hw; cbn in Hb; subst st2; cbn.
  - by repeat split.
  - repeat split; try done. intros Hs.
    by rewrite worker_running in Hw by exact Hs.
Qed.

(** X8: a request made by [procedure] has a method that starts with
    "execute", whatever the name of the procedure is, so that a reply
    without [error] resolves it with the pair of the response and the list
    of errors. *)
Theorem procedure_resolves_as_execute
    (name : string) (params : gmap string string) (k : Awaiter)
    (response : Response) (q : Request) (st st1 : State) :
  let r := length (requests st) in
  procedure name params st
  = callWithRequest r
      (with_requests
         (requests st
          ++ [mkRequest ("execute." +:+ name) params 0 Pending None])
         st) /\
  (requests st1 !! r = Some q ->
   method q = "execute." +:+ name ->
   resp_error response = None ->
   result r (final (callMethod_fetched r k (FetchReturned response) st1))
   = Some (settle
             (Resolved
                (VExecute (resp_response response)
                   (mkExecuteError
                      <$> default [] (resp_execute_errors response))))
             (promise q))).
Proof.
  cbn zeta. split; [done|]. intros Hq Hm He.
  assert (Hexecute : startsWith (method q) "execute" = true).
  { rewrite Hm. unfold startsWith.
    change ("execute." +:+ name) with ("execute" +:+ ("." +:+ name)).
    apply prefix_append. }
  unfold callMethod_fetched. exec.
  rewrite (request_found _ _ _ Hq), He, Hexecute, (if_captcha_found _ _ _ _ Hq).
  unfold result.
  destruct (captcha q) as [c|]; destruct k; exec_settle;
    by rewrite list_lookup_alter_eq, Hq.
Qed.

End Queue_properties.

(** ** The first tick *)

Lemma round_nearest (a b : Z) :
  (0 < b)%Z ->
  (2 * round (inject_Z a / inject_Z b) * b <= 2 * a + b
   < 2 * (round (inject_Z a / inject_Z b) + 1) * b)%Z.
Proof.
  intros Hb. unfold round.
  set (x := (inject_Z a / inject_Z b + (1 # 2))%Q).
  pose proof (Qfloor_le x) as H1. pose proof (Qlt_floor x) as H2.
  set (i := Qfloor x) in *. clearbody i.
  subst x. destruct b as [|p|p]; try lia.
  unfold Qle, Qlt, Qdiv, Qmult, Qplus, Qinv, inject_Z in *. cbn in H1, H2.
  lia.
Qed.

Section Start_properties.

Context {constants : Constants} {workers : Workers}.

(** X9: when [worker] starts the loop on a queue that holds a request, it
    calls the handler of the mode at once, with [started] already true, and
    the interval it hands over for the ticks is [MINIMUM_TIME_INTERVAL_API /
    apiLimit] rounded to the nearest integer, halves upwards: [apiLimit]
    ticks take the minimum interval to within half a millisecond each, and
    can fall short of it. *)
Theorem worker_interval (h : Handler) (st : State) :
  started st = false ->
  queue st <> [] ->
  suspended st = false ->
  requestHandlers_get (default "sequential" (apiMode (options (vk st))))
  = Some h ->
  (0 < apiLimit (options (vk st)))%Z ->
  exists interval : Z,
    worker st = invoke h interval (with_started true st) /\
    (2 * interval * apiLimit (options (vk st))
     <= 2 * MINIMUM_TIME_INTERVAL_API + apiLimit (options (vk st))
     < 2 * (interval + 1) * apiLimit (options (vk st)))%Z.
Proof.
  intros Hst Hq Hs Hh Hl.
  exists (round (inject_Z MINIMUM_TIME_INTERVAL_API
                 / inject_Z (apiLimit (options (vk st))))).
  split; [|by apply round_nearest].
  unfold worker, getRequestHandler. exec. rewrite Hst. exec. rewrite Hh.
  by rewrite work_dispatch.
Qed.

(** X10: [messages.send] always sends a [random_id]: the one of the caller
    when the params have that key, and otherwise the one that [getRandomId]
    returns; every other param is passed on as it is, and no params at all
    stand for the empty object. *)
Theorem messages_send_random_id
    (random : string) (params : option (gmap string string)) :
  exists sent : gmap string string,
    messages_send random params = enqueue "messages.send" sent /\
    sent !! "random_id"
    = Some (default random (default ∅ params !! "random_id")) /\
    forall key : string,
      key <> "random_id" -> sent !! key = default ∅ params !! key.
Proof.
  unfold messages_send.
  destruct (default ∅ params !! "random_id") as [x|] eqn:Hx.
  - exists (default ∅ params).
    rewrite bool_decide_eq_true_2 by done. by rewrite Hx.
  - exists (<["random_id" := random]> (default ∅ params)).
    rewrite bool_decide_eq_false_2 by (by intros [? ?]).
    split; [done|]. split; [by rewrite lookup_insert_eq|].
    intros key Hkey. by rewrite lookup_insert_ne.
Qed.

End Start_properties.

(** ** Typing contexts *)

(** X11: a typing context is of a user exactly for the event 61 and of a
    chat for every other event, but only the event 62 gives it a chat: for
    the other events [isChat] holds while [chatId] is [null] and [peerId] is
    the user.  For the event 62 the peer is the chat moved by [CHAT_PEER]. *)
Theorem TypingContext_kinds
    (CHAT_PEER : Z) (eventId userId extra : TypingContext.Js) :
  let ctx := TypingContext.new CHAT_PEER eventId userId extra in
  TypingContext.isUser ctx = TypingContext.strict_eq eventId 61 /\
  TypingContext.isChat ctx = negb (TypingContext.isUser ctx) /\
  TypingContext.userId ctx = userId /\
  (if TypingContext.strict_eq eventId 62
   then TypingContext.isChat ctx = true /\
        TypingContext.chatId ctx = extra /\
        TypingContext.peerId ctx = TypingContext.add extra CHAT_PEER
   else TypingContext.chatId ctx = TypingContext.Null /\
        TypingContext.peerId ctx = userId).
Proof.
  cbn zeta. unfold TypingContext.new, TypingContext.isUser,
    TypingContext.isChat, TypingContext.chatId, TypingContext.peerId,
    TypingContext.userId. cbn.
  destruct eventId as [| | |n]; cbn; try done.
  destruct (n =? 61)%Z eqn:H61, (n =? 62)%Z eqn:H62; cbn; try done.
  lia.
Qed.

(** ** A loop that has died *)

Section Stalled.

Context {constants : Constants} {workers : Workers}.

Lemma enqueue_running
    (method : string) (params : gmap string string) (st : State) :
  started st = true ->
  enqueue method params st
  = Returns (length (requests st))
      (with_queue (queue st ++ [length (requests st)])
         (with_requests
            (requests st ++ [mkRequest method params 0 Pending None]) st)).
Proof.
  intros Hs. unfold enqueue, new_Request, callWithRequest. exec.
  by rewrite worker_running.
Qed.

(** On such a client only calls can happen, and each of them allocates one
    request and puts it at the tail of the queue. *)
Lemma run_stalled (evs : list Event) (st st' : State) :
  started st = true ->
  tasks st = [] ->
  run evs st = Some st' ->
  st'
  = with_queue (queue st ++ seq (length (requests st)) (length evs))
      (with_requests
         (requests st
          ++ omap (fun ev =>
                     match ev with
                     | Enqueue method params =>
                         Some (mkRequest method params 0 Pending None)
                     | Resume _ _ => None
                     end) evs)
         st) /\
  Forall (fun ev => exists method params, ev = Enqueue method params) evs.
Proof.
  revert st. induction evs as [|ev evs IH]; intros st Hs Ht Hrun.
  - injection Hrun as <-. cbn. rewrite !app_nil_r. by destruct st.
  - destruct ev as [method params|i input].
    + cbn in Hrun. rewrite enqueue_running in Hrun by exact Hs.
      cbn in Hrun. apply IH in Hrun as [-> HF]; [|done..].
      split; [|constructor; eauto].
      cbn. rewrite length_app, <- !app_assoc. cbn.
      by rewrite Nat.add_1_r.
    + cbn in Hrun. by rewrite Ht in Hrun.
Qed.

(** X12: a client whose loop is marked as running while nothing is pending
    is dead: the calls made to it are only added to the queue, their results
    stay pending, nothing is ever handed to the transport and no event can
    wake the loop again. *)
Theorem stalled_client_never_dispatches
    (evs : list Event) (st st' : State) :
  started st = true ->
  tasks st = [] ->
  run evs st = Some st' ->
  started st' = true /\
  tasks st' = [] /\
  trace st' = trace st /\
  queue st' = queue st ++ seq (length (requests st)) (length evs) /\
  length (requests st') = length (requests st) + length evs /\
  (forall r, r < length (requests st) ->
     requests st' !! r = requests st !! r) /\
  (forall r, length (requests st) <= r ->
     r < length (requests st') ->
     result r st' = Some Pending /\ r ∈ queue st').
Proof.
  intros Hs Ht Hrun.
  destruct (run_stalled evs st st' Hs Ht Hrun) as [-> HF]. cbn.
  assert (Hlen : length
                   (omap (fun ev =>
                            match ev with
                            | Enqueue method params =>
                                Some (mkRequest method params 0 Pending None)
                            | Resume _ _ => None
                            end) evs)
                 = length evs).
  { clear Hrun. induction HF as [|ev evs (m & p & ->) _ IH]; cbn; [done|].
    by rewrite IH. }
  split; [done|]. split; [done|]. split; [done|]. split; [done|].
  split; [by rewrite length_app, Hlen|].
  split; [intros r Hr; by rewrite lookup_app_l|].
  intros r Hr1 Hr2. rewrite length_app, Hlen in Hr2. split.
  - unfold result. cbn. rewrite lookup_app_r by done.
    destruct (omap _ evs !! (r - length (requests st))) as [q|] eqn:Hq.
    + cbn. f_equal.
      apply list_elem_of_lookup_2, list_elem_of_omap in Hq
        as (ev & _ & Hev).
      destruct ev; [by injection Hev as <-|done].
    + apply lookup_ge_None in Hq. lia.
  - apply elem_of_app. right. apply elem_of_seq. lia.
Qed.

End Stalled.

(** ** A suspension always ends *)

Lemma hoare_seq_modify {B : Type}
    (P R Q : State -> Prop) (f : State -> State) (m : M B) :
  (forall st, P st -> R (f st)) ->
  hoare R m Q ->
  hoare P (modify f;; m) Q.
Proof. intros Hf Hm st HP. apply (Hm (f st)), Hf, HP. Qed.

Lemma hoare_try_catch_post
    (P R Q : State -> Prop) (m : M unit) (h : Error -> M unit) :
  hoare P m R -> (forall st, R st -> Q st) -> (forall e, hoare R (h e) Q) ->
  hoare P (try_catch m h) Q.
Proof.
  intros Hm Hrq Hh st HP. specialize (Hm st HP).
  unfold try_catch. destruct (m st) as [a st'|e st']; cbn in *.
  - by apply Hrq.
  - by apply Hh.
Qed.

Lemma backed_frame (st st' : State) :
  tasks st' = tasks st -> suspended st' = suspended st ->
  backed st -> backed st'.
Proof. unfold backed. by intros -> ->. Qed.

Lemma backed_clear (st : State) : suspended st = false -> backed st.
Proof. unfold backed. by intros ->. Qed.

Lemma backed_await (t : Task) (st : State) :
  recovers t = true -> backed (with_tasks (tasks st ++ [t]) st).
Proof.
  intros Ht _. cbn. apply Exists_app. right. by constructor.
Qed.

Lemma backed_delete (i : nat) (t : Task) (st : State) :
  tasks st !! i = Some t -> recovers t = false ->
  backed st -> backed (with_tasks (delete i (tasks st)) st).
Proof.
  unfold backed. cbn. intros Hi Ht H Hs. specialize (H Hs).
  clear Hs. revert i Hi. induction H as [x l Hx|x l Hl IH]; intros [|i] Hi.
  - injection Hi as ->. congruence.
  - by constructor.
  - change (delete 0 (x :: l)) with l. exact Hl.
  - change (delete (S i) (x :: l)) with (x :: delete i l).
    apply Exists_cons_tl. by apply IH.
Qed.

Section Backed.

Context {constants : Constants} {workers : Workers}.

(** The handlers leave [suspended] backed: they neither set it nor drop
    the continuation that will clear it. *)
Hypothesis invoke_backed :
  forall (h : Handler) (interval : Z),
    hoare backed (invoke h interval) backed.

Lemma bk_frame (f : State -> State) :
  (forall st, tasks (f st) = tasks st) ->
  (forall st, suspended (f st) = suspended st) ->
  hoare backed (modify f) backed.
Proof.
  intros H1 H2 st H. unfold modify. cbn. by apply (backed_frame st).
Qed.

Lemma bk_await (t : Task) : hoare backed (await t) backed.
Proof.
  intros st H Hs. cbn in *. apply Exists_app. left. by apply H.
Qed.

Lemma bk_suspend_await (P : State -> Prop) (t : Task) :
  recovers t = true ->
  hoare P (modify (with_suspended true);; await t) backed.
Proof. intros Ht st _. by apply (backed_await t (with_suspended true st)). Qed.

Lemma bk_suspend_emit_await (P : State -> Prop) (c : Call) (t : Task) :
  recovers t = true ->
  hoare P (modify (with_suspended true);; emit c;; await t) backed.
Proof.
  intros Ht st _.
  by apply (backed_await t
              (with_trace (trace st ++ [c]) (with_suspended true st))).
Qed.

Ltac bk :=
  repeat first
    [ match goal with
      | |- hoare _ (modify (with_suspended true) ≫= _) _ =>
          first [ by apply bk_suspend_await
                | by apply bk_suspend_emit_await ]
      end
    | hoare_struct ltac:(done)
    | match goal with
      | |- hoare _ (emit _) _ => by apply bk_frame
      | |- hoare _ (update _ _) _ => by apply bk_frame
      | |- hoare _ (modify _) _ => by apply bk_frame
      | |- hoare _ (await _) _ => apply bk_await
      | |- hoare _ (settled ?k) _ => destruct k; unfold settled
      end ].

Lemma bk_work (h : Handler) (interval : Z) :
  hoare backed (work h interval) backed.
Proof. unfold work. bk. apply invoke_backed. Qed.

Lemma bk_worker : hoare backed worker backed.
Proof. unfold worker. bk. apply bk_work. Qed.

Lemma bk_requeue (r : ReqId) : hoare backed (requeue r) backed.
Proof. unfold requeue. bk. apply bk_worker. Qed.

Lemma bk_reject (r : ReqId) (e : Error) : hoare backed (reject r e) backed.
Proof. unfold reject. bk. Qed.

Lemma bk_resolve (r : ReqId) (v : Value) : hoare backed (resolve r v) backed.
Proof. unfold resolve. bk. Qed.

Lemma bk_captcha_reject (c : nat) (e : Error) :
  hoare backed (captcha_reject c e) backed.
Proof. unfold captcha_reject. bk. Qed.

Lemma bk_captcha_resolve (c : nat) : hoare backed (captcha_resolve c) backed.
Proof. unfold captcha_resolve. bk. Qed.

Lemma bk_if_captcha (r : ReqId) (f : nat -> M unit) :
  (forall c, hoare backed (f c) backed) ->
  hoare backed (if_captcha r f) backed.
Proof. intros Hf. unfold if_captcha. bk. apply Hf. Qed.

Lemma bk_addAttempt (r : ReqId) : hoare backed (addAttempt r) backed.
Proof. unfold addAttempt. bk. Qed.

Ltac bk_calls :=
  bk;
  match goal with
  | |- hoare _ worker _ => apply bk_worker
  | |- hoare _ (requeue _) _ => apply bk_requeue
  | |- hoare _ (reject _ _) _ => apply bk_reject
  | |- hoare _ (resolve _ _) _ => apply bk_resolve
  | |- hoare _ (captcha_reject _ _) _ => apply bk_captcha_reject
  | |- hoare _ (addAttempt _) _ => apply bk_addAttempt
  | |- hoare _ (if_captcha _ captcha_resolve) _ =>
      apply bk_if_captcha; intros; apply bk_captcha_resolve
  | |- hoare _ (if_captcha _ _) _ =>
      apply bk_if_captcha; intros; apply bk_captcha_reject
  end.

(** [handleError] sets [suspended] only together with the wait that ends
    it. *)
Lemma bk_handleError (r : ReqId) (error : APIError) :
  hoare backed (handleError r error) backed.
Proof. unfold handleError. bk_calls. Qed.

Lemma bk_callMethod_fetched (r : ReqId) (k : Awaiter) (res : FetchResult) :
  hoare backed (callMethod_fetched r k res) backed.
Proof.
  unfold callMethod_fetched. bk;
    match goal with
    | |- hoare _ (handleError _ _) _ => apply bk_handleError
    | |- _ => bk_calls
    end.
Qed.

(** The [catch] block of the re-authentication starts the wait that clears
    [suspended]. *)
Lemma bk_handleError_catch (P : State -> Prop) (r : ReqId) (error : APIError) :
  hoare P (handleError_catch r error) backed.
Proof.
  intros st _. unfold handleError_catch. exec_settle.
  intros _. cbn. apply Exists_app. right. by constructor.
Qed.

Lemma bk_resume (t : Task) (input : Input) (m : M unit) :
  resume t input = Some m ->
  hoare (fun st => recovers t = false -> backed st) m backed.
Proof.
  destruct t as [r k|r ms k|r ms|r error|ms|r sid|h interval], input;
    intros [= <-]; cbn [recovers].
  - intros st H. apply bk_callMethod_fetched. by apply H.
  - intros st H. specialize (H eq_refl). revert st H.
    change (hoare backed (callMethod_restart r k) backed).
    unfold callMethod_restart. bk_calls.
  - unfold handleError_backoff.
    apply (hoare_seq_modify _ backed); [by intros; apply backed_clear|].
    apply bk_requeue.
  - destruct res as [new_token|e]; cbn [handleError_verification].
    + apply (hoare_try_catch_post _ backed); [|done|].
      * apply (hoare_seq_modify _ (fun _ => True)); [done|].
        apply (hoare_seq_modify _ backed);
          [by intros; apply backed_clear|].
        apply bk_requeue.
      * intros _. apply bk_handleError_catch.
    + apply bk_handleError_catch.
  - unfold handleError_cooldown.
    apply (hoare_seq_modify _ backed); [by intros; apply backed_clear|].
    apply bk_worker.
  - intros st H. specialize (H eq_refl). revert st H.
    change (hoare backed (handleError_retry r sid ans) backed).
    unfold handleError_retry. bk_calls.
  - intros st H. apply bk_work. by apply H.
Qed.

Lemma bk_enqueue (method : string) (params : gmap string string) :
  hoare backed (enqueue method params) backed.
Proof. unfold enqueue, new_Request, callWithRequest. bk_calls. Qed.

Lemma bk_step (ev : Event) (st st' : State) :
  step ev st = Some st' -> backed st -> backed st'.
Proof.
  destruct ev as [method params|i input]; cbn.
  - intros [= <-]. apply bk_enqueue.
  - destruct (tasks st !! i) as [t|] eqn:Ht; [|done]. cbn.
    destruct (resume t input) as [m|] eqn:Hm; [|done]. cbn.
    intros [= <-] H. apply (bk_resume _ _ _ Hm).
    intros Hrec. by apply (backed_delete i t).
Qed.

Lemma bk_run (evs : list Event) (st st' : State) :
  run evs st = Some st' -> backed st -> backed st'.
Proof.
  revert st. induction evs as [|ev evs IH]; intros st; cbn.
  - by intros [= <-].
  - destruct (step ev st) as [st1|] eqn:Hstep; [|done]. cbn.
    intros Hrun Hst. apply (IH _ Hrun). by apply (bk_step _ _ _ Hstep).
Qed.

(** X13: whenever [suspended] is true, one of the waits that clear it is
    pending: the wait after "too many requests", a re-authentication, or the
    15 seconds after a failed one.  The scheduler cannot stay suspended with
    nothing left to wake it.  The handlers are taken to leave [suspended]
    and the pending waits alone. *)
Theorem suspension_always_ends (v : VK) (evs : list Event) (st : State) :
  run evs (constructor v) = Some st ->
  suspended st = true ->
  Exists (fun t => recovers t = true) (tasks st).
Proof.
  intros Hrun. change (backed st).
  apply (bk_run evs (constructor v)); [done|]. by intros H.
Qed.

End Backed.

(** ** No request is lost *)

Section Triples.

Context {A B : Type}.

Lemma triple_bind (R P Q E : State -> Prop) (m : M A) (f : A -> M B) :
  triple P m R E -> (forall a, triple R (f a) Q E) ->
  triple P (m ≫= f) Q E.
Proof.
  intros Hm Hf st HP. specialize (Hm st HP). unfold mbind, M_bind.
  destruct (m st) as [a st'|e st']; [by apply Hf | done].
Qed.

Lemma triple_conseq (P P' Q Q' E E' : State -> Prop) (m : M A) :
  triple P m Q E ->
  (forall st, P' st -> P st) ->
  (forall st, Q st -> Q' st) ->
  (forall st, E st -> E' st) ->
  triple P' m Q' E'.
Proof.
  intros Hm HP HQ HE st H. specialize (Hm st (HP st H)).
  destruct (m st); auto.
Qed.

Lemma triple_ret (P E : State -> Prop) (a : A) : triple P (mret a) P E.
Proof. by intros st H. Qed.

Lemma triple_hoare (P Q : State -> Prop) (m : M A) :
  triple P m Q Q -> hoare P m Q.
Proof. intros Hm st H. specialize (Hm st H). by destruct (m st). Qed.

End Triples.

Lemma triple_get (P E : State -> Prop) : triple P get P E.
Proof. by intros st H. Qed.

Lemma triple_modify (P Q E : State -> Prop) (f : State -> State) :
  (forall st, P st -> Q (f st)) -> triple P (modify f) Q E.
Proof. intros Hf st H. by apply Hf. Qed.

Lemma triple_detach (P Q E : State -> Prop) (m : M unit) :
  triple P m Q Q -> triple P (detach m) Q E.
Proof.
  intros Hm st H. specialize (Hm st H). unfold detach.
  by destruct (m st).
Qed.

Lemma triple_try_catch
    (R P Q E : State -> Prop) (m : M unit) (h : Error -> M unit) :
  triple P m Q R -> (forall e, triple R (h e) Q E) ->
  triple P (try_catch m h) Q E.
Proof.
  intros Hm Hh st H. specialize (Hm st H). unfold try_catch.
  destruct (m st) as [a st'|e st']; [done | by apply Hh].
Qed.

(** A continuation holds one request at most. *)
Lemma mentions_one (r r' : ReqId) (t : Task) :
  mentions r t = true -> mentions r' t = true -> r' = r.
Proof.
  destruct t; cbn; try done;
    intros H1%bool_decide_eq_true H2%bool_decide_eq_true; congruence.
Qed.

Lemma Exists_delete_other {T : Type} (P : T -> Prop) (i : nat) (x : T)
    (l : list T) :
  l !! i = Some x -> ~ P x -> Exists P l -> Exists P (delete i l).
Proof.
  intros Hi Hx H. revert i Hi.
  induction H as [y l Hy|y l Hl IH]; intros [|i] Hi.
  - injection Hi as ->. done.
  - by constructor.
  - change (delete 0 (y :: l)) with l. exact Hl.
  - change (delete (S i) (y :: l)) with (y :: delete i l).
    apply Exists_cons_tl. by apply IH.
Qed.

Lemma answered_alter (g : Request -> Request) (r0 r : ReqId) (st : State) :
  (forall q, is_settled (promise q) = true ->
             is_settled (promise (g q)) = true) ->
  answered r st ->
  answered r (with_requests (alter g r0 (requests st)) st).
Proof.
  intros Hg. unfold answered, result. cbn.
  destruct (decide (r0 = r)) as [->|Hne].
  - rewrite list_lookup_alter_eq.
    destruct (requests st !! r) as [q|]; cbn; [|done].
    intros [= H]. by rewrite Hg.
  - by rewrite list_lookup_alter_ne.
Qed.

Lemma answered_settle (x : Future) (r : ReqId) (st : State) :
  is_settled x = true ->
  r < length (requests st) ->
  answered r
    (with_requests
       (alter (fun q => with_promise (settle x (promise q)) q) r
          (requests st)) st).
Proof.
  intros Hx Hr. unfold answered, result. cbn.
  rewrite list_lookup_alter_eq.
  destruct (lookup_lt_is_Some_2 _ _ Hr) as [q ->]. cbn.
  destruct (promise q); cbn; by rewrite ?Hx.
Qed.

Lemma settle_monotone (x f : Future) :
  is_settled f = true -> is_settled (settle x f) = true.
Proof. by destruct f. Qed.

Section Keeping.

Context {node_url : NodeUrl}.

Lemma keeps_refl (st : State) : keeps st st.
Proof. by intros base H. Qed.

Lemma keeps_trans (st1 st2 st3 : State) :
  keeps st1 st2 -> keeps st2 st3 -> keeps st1 st3.
Proof.
  intros H12 H23 base H1. destruct (H12 base H1) as (H2 & Hl2 & Ha2).
  destruct (H23 base H2) as (H3 & Hl3 & Ha3).
  split; [done|]. split; [congruence|]. auto.
Qed.

(** What leaves the queue, the continuations, the base URL, the methods and
    the settled results alone keeps the requests. *)
Lemma keeps_frame (st st' : State) :
  queue st' = queue st -> tasks st' = tasks st ->
  baseUrl st' = baseUrl st ->
  method <$> requests st' = method <$> requests st ->
  (forall r, answered r st -> answered r st') ->
  keeps st st'.
Proof.
  intros Hq Ht Hb Hm Ha base (H1 & H2 & H3 & H4).
  assert (Hl : length (requests st') = length (requests st)).
  { rewrite <- (length_fmap method (requests st')), Hm.
    apply length_fmap. }
  assert (Hv : forall l : list Request,
            Forall (fun q => valid_URL (method q) base = true) l
            <-> Forall (fun m => valid_URL m base = true) (method <$> l))
    by (intros l; by rewrite Forall_fmap).
  unfold well_formed, accounted.
  rewrite Hq, Ht, Hl, Hb. split; [|split; [done|]].
  - split; [done|]. split; [done|]. split; [done|].
    apply Hv. rewrite Hm. by apply Hv.
  - intros r [H|[H|H]]; auto.
Qed.

Lemma methods_alter (g : Request -> Request) (r : ReqId) (l : list Request) :
  (forall q, method (g q) = method q) ->
  method <$> alter g r l = method <$> l.
Proof.
  intros Hg. revert r. induction l as [|q l IH]; intros [|r]; cbn;
    [done|done| |]; f_equal; auto.
Qed.

Variable base : string.

Lemma kept_keeps (r0 : ReqId) (b : bool) (st st' : State) :
  keeps st st' -> kept base r0 b st -> kept base r0 b st'.
Proof.
  intros H (Hwf & Hr & Hacc). destruct (H base Hwf) as (Hwf' & Hl & Ha).
  split; [done|]. rewrite Hl. split; [done|].
  intros r Hlt Hb. by apply Ha, Hacc.
Qed.

Lemma conserved_keeps (st st' : State) :
  keeps st st' -> conserved base st -> conserved base st'.
Proof.
  intros H (Hwf & Hacc). destruct (H base Hwf) as (Hwf' & Hl & Ha).
  split; [done|]. rewrite Hl. intros r Hlt. by apply Ha, Hacc.
Qed.

Lemma kept_conserved (r0 : ReqId) (st : State) :
  kept base r0 true st -> conserved base st.
Proof.
  intros (Hwf & Hr & Hacc). split; [done|]. intros r Hlt. by apply Hacc.
Qed.

Lemma kept_weaken (r0 : ReqId) (b : bool) (st : State) :
  kept base r0 true st -> kept base r0 b st.
Proof.
  intros (Hwf & Hr & Hacc). split; [done|]. split; [done|].
  intros r Hlt _. by apply Hacc.
Qed.

Lemma kept_back (r0 : ReqId) (b : bool) (st : State) :
  accounted r0 st -> kept base r0 b st -> kept base r0 true st.
Proof.
  intros Ha (Hwf & Hr & Hacc). split; [done|]. split; [done|].
  intros r Hlt _. destruct (decide (r = r0)) as [->|Hne]; [done|].
  by apply Hacc.
Qed.

Lemma kept_frame (r0 : ReqId) (b : bool) (st st' : State) :
  queue st' = queue st -> tasks st' = tasks st ->
  baseUrl st' = baseUrl st ->
  method <$> requests st' = method <$> requests st ->
  (forall r, answered r st -> answered r st') ->
  kept base r0 b st -> kept base r0 b st'.
Proof.
  intros Hq Ht Hb Hm Ha. apply kept_keeps. by apply keeps_frame.
Qed.

Lemma kept_alter (r0 : ReqId) (b : bool) (g : Request -> Request)
    (r : ReqId) (st : State) :
  (forall q, is_settled (promise q) = true ->
             is_settled (promise (g q)) = true) ->
  (forall q, method (g q) = method q) ->
  kept base r0 b st ->
  kept base r0 b (with_requests (alter g r (requests st)) st).
Proof.
  intros Hg Hm. apply kept_frame; try done.
  - cbn. by apply methods_alter.
  - intros r'. by apply answered_alter.
Qed.

Lemma kept_await (r0 : ReqId) (b : bool) (t : Task) (st : State) :
  (forall r, mentions r t = true -> r = r0) ->
  kept base r0 b st ->
  kept base r0 (b || mentions r0 t) (with_tasks (tasks st ++ [t]) st).
Proof.
  intros Ht (Hwf & Hr & Hacc).
  assert (Hgrow : forall r, accounted r st ->
            accounted r (with_tasks (tasks st ++ [t]) st)).
  { intros r [H|[H|H]]; [by left| |by right; right].
    right. left. cbn. apply Exists_app. by left. }
  split; [|split; [done|]].
  - destruct Hwf as (H1 & H2 & H3). split; [done|]. split; [|done]. cbn.
    apply Forall_app. split; [done|]. constructor; [|done].
    intros r Hm. by rewrite (Ht r Hm).
  - cbn. intros r Hlt Hb. destruct (decide (r = r0)) as [->|Hne].
    + specialize (Hb eq_refl). apply orb_true_iff in Hb as [->|Hm].
      * by apply Hgrow, Hacc.
      * right. left. cbn. apply Exists_app. right. by constructor.
    + by apply Hgrow, Hacc.
Qed.

Lemma kept_push (r0 : ReqId) (b : bool) (q' : list ReqId) (st : State) :
  (forall r, r ∈ q' <-> r = r0 \/ r ∈ queue st) ->
  kept base r0 b st -> kept base r0 true (with_queue q' st).
Proof.
  intros Hq (Hwf & Hr & Hacc).
  split; [|split; [done|]].
  - destruct Hwf as (H1 & H2 & H3). split; [|done]. cbn.
    apply Forall_forall. intros r [->|Hin]%Hq; [done|].
    by apply (proj1 (Forall_forall _ _) H1).
  - cbn. intros r Hlt _. destruct (decide (r = r0)) as [->|Hne].
    + left. cbn. apply Hq. by left.
    + destruct (Hacc r Hlt) as [H|[H|H]]; [done| | |].
      * left. cbn. apply Hq. by right.
      * by right; left.
      * by right; right.
Qed.

Lemma kept_answer (r0 : ReqId) (b : bool) (x : Future) (st : State) :
  is_settled x = true ->
  kept base r0 b st ->
  kept base r0 true
    (with_requests
       (alter (fun q => with_promise (settle x (promise q)) q) r0
          (requests st)) st).
Proof.
  intros Hx H. apply (kept_back r0 b).
  - right. right. apply answered_settle; [done|]. by destruct H as (_ & ? & _).
  - apply kept_alter; [|done|done]. intros q. apply settle_monotone.
Qed.

Lemma kept_delete (r : ReqId) (i : nat) (t : Task) (st : State) :
  tasks st !! i = Some t ->
  mentions r t = true ->
  conserved base st ->
  kept base r false (with_tasks (delete i (tasks st)) st).
Proof.
  intros Hi Hm ((H1 & H2 & H3) & Hacc).
  split; [|split].
  - split; [done|]. split; [|done]. cbn. by apply Forall_delete.
  - cbn. by apply (proj1 (Forall_lookup _ _) H2 i t Hi).
  - cbn. intros r' Hlt Hne.
    destruct (Hacc r' Hlt) as [H|[H|H]];
      [by left| |by right; right].
    right. left. cbn. apply (Exists_delete_other _ i t); [done| |done].
    intros Hm'. specialize (Hne (mentions_one _ _ _ Hm Hm')). done.
Qed.

Lemma conserved_delete (i : nat) (t : Task) (st : State) :
  tasks st !! i = Some t ->
  (forall r, mentions r t = false) ->
  conserved base st ->
  conserved base (with_tasks (delete i (tasks st)) st).
Proof.
  intros Hi Hm ((H1 & H2 & H3) & Hacc).
  split.
  - split; [done|]. split; [|done]. cbn. by apply Forall_delete.
  - cbn. intros r Hlt.
    destruct (Hacc r Hlt) as [H|[H|H]];
      [by left| |by right; right].
    right. left. cbn. apply (Exists_delete_other _ i t); [done| |done].
    by rewrite Hm.
Qed.

End Keeping.

Section Conserved.

Context {constants : Constants} {node_url : NodeUrl} {workers : Workers}.

(** The handlers lose no request whose URL can be built: one that they take
    from the queue they hand to a continuation, and they allocate none. *)
Hypothesis invoke_keeps :
  forall (h : Handler) (interval : Z) (st : State),
    keeps st (final (invoke h interval st)).

Lemma keeps_started (b : bool) (st : State) : keeps st (with_started b st).
Proof. by apply keeps_frame. Qed.

Lemma keeps_work (h : Handler) (interval : Z) (st : State) :
  keeps st (final (work h interval st)).
Proof.
  unfold work. exec.
  destruct ((length (queue st) =? 0)%nat || suspended st); cbn.
  - apply keeps_started.
  - apply invoke_keeps.
Qed.

Lemma keeps_worker (st : State) : keeps st (final (worker st)).
Proof.
  destruct (started st) eqn:Hst;
    [rewrite worker_running by done; apply keeps_refl|].
  unfold worker, getRequestHandler. exec. rewrite Hst. cbn.
  destruct (requestHandlers_get _) as [h|]; cbn;
    [|apply keeps_started].
  apply (keeps_trans _ (with_started true st)); [apply keeps_started|].
  apply keeps_work.
Qed.

Section Held.

(** The base URL, and the request that the running code holds. *)
Variable base : string.
Variable r0 : ReqId.

Lemma tr_frame (b : bool) (E : State -> Prop) (f : State -> State) :
  (forall st, queue (f st) = queue st) ->
  (forall st, tasks (f st) = tasks st) ->
  (forall st, requests (f st) = requests st) ->
  (forall st, baseUrl (f st) = baseUrl st) ->
  triple (kept base r0 b) (modify f) (kept base r0 b) E.
Proof.
  intros Hq Ht Hr Hb. apply triple_modify. intros st.
  apply kept_frame; try done.
  - by rewrite Hr.
  - intros r. unfold answered, result. by rewrite Hr.
Qed.

Lemma tr_update (b : bool) (E : State -> Prop) (r : ReqId)
    (g : Request -> Request) :
  (forall q, is_settled (promise q) = true ->
             is_settled (promise (g q)) = true) ->
  (forall q, method (g q) = method q) ->
  triple (kept base r0 b) (update r g) (kept base r0 b) E.
Proof.
  intros Hg Hm. apply triple_modify. intros st. by apply kept_alter.
Qed.

Lemma tr_await (b : bool) (E : State -> Prop) (t : Task) :
  (forall r, mentions r t = true -> r = r0) ->
  triple (kept base r0 b) (await t) (kept base r0 (b || mentions r0 t)) E.
Proof. intros Ht. apply triple_modify. intros st. by apply kept_await. Qed.

Lemma tr_await_own (b : bool) (E : State -> Prop) (t : Task) :
  mentions r0 t = true ->
  triple (kept base r0 b) (await t) (kept base r0 true) E.
Proof.
  intros Ht. apply (triple_conseq _ _ _ _ _ _ _ (tr_await b E t
    (fun r H => mentions_one _ _ _ Ht H))); try done.
  intros st. by rewrite Ht, orb_true_r.
Qed.

Lemma tr_await_other (b : bool) (E : State -> Prop) (t : Task) :
  (forall r, mentions r t = false) ->
  triple (kept base r0 b) (await t) (kept base r0 b) E.
Proof.
  intros Ht.
  assert (H : forall r, mentions r t = true -> r = r0)
    by (intros r; by rewrite Ht).
  apply (triple_conseq _ _ _ _ _ _ _ (tr_await b E t H)); try done.
  intros st. by rewrite Ht, orb_false_r.
Qed.

Lemma tr_settle (b : bool) (E : State -> Prop) (r : ReqId) (x : Future) :
  triple (kept base r0 b)
    (update r (fun q => with_promise (settle x (promise q)) q))
    (kept base r0 b) E.
Proof. apply tr_update; [|done]. intros q. apply settle_monotone. Qed.

Lemma tr_reject (b : bool) (E : State -> Prop) (e : Error) :
  triple (kept base r0 b) (reject r0 e) (kept base r0 true) E.
Proof.
  unfold reject. apply (triple_bind (kept base r0 b)); [by apply tr_frame|].
  intros _. apply triple_modify. intros st. by apply kept_answer.
Qed.

Lemma tr_resolve (b : bool) (E : State -> Prop) (v : Value) :
  triple (kept base r0 b) (resolve r0 v) (kept base r0 true) E.
Proof.
  unfold resolve. apply (triple_bind (kept base r0 b)); [by apply tr_frame|].
  intros _. apply triple_modify. intros st. by apply kept_answer.
Qed.

Lemma tr_captcha_reject (b : bool) (E : State -> Prop) (c : nat) (e : Error) :
  triple (kept base r0 b) (captcha_reject c e) (kept base r0 b) E.
Proof.
  unfold captcha_reject.
  apply (triple_bind (kept base r0 b)); [by apply tr_frame|].
  intros _. by apply tr_frame.
Qed.

Lemma tr_captcha_resolve (b : bool) (E : State -> Prop) (c : nat) :
  triple (kept base r0 b) (captcha_resolve c) (kept base r0 b) E.
Proof.
  unfold captcha_resolve.
  apply (triple_bind (kept base r0 b)); [by apply tr_frame|].
  intros _. by apply tr_frame.
Qed.

(** The request that the running code holds is on the heap. *)
Lemma tr_request (b : bool) (E : State -> Prop) :
  triple (kept base r0 b) (request r0) (kept base r0 b) E.
Proof.
  intros st H. destruct H as (Hwf & Hr & Hacc).
  destruct (lookup_lt_is_Some_2 _ _ Hr) as [q Hq].
  by rewrite (request_found _ _ _ Hq).
Qed.

Lemma tr_if_captcha (b : bool) (E : State -> Prop) (f : nat -> M unit) :
  (forall c, triple (kept base r0 b) (f c) (kept base r0 b) E) ->
  triple (kept base r0 b) (if_captcha r0 f) (kept base r0 b) E.
Proof.
  intros Hf. unfold if_captcha.
  apply (triple_bind (kept base r0 b)); [apply tr_request|].
  intros q. destruct (captcha q); [apply Hf | apply triple_ret].
Qed.

Lemma tr_addAttempt (b : bool) (E : State -> Prop) :
  triple (kept base r0 b) (addAttempt r0) (kept base r0 b) E.
Proof.
  unfold addAttempt.
  apply (triple_bind (kept base r0 b)); [apply tr_request|]. intros q.
  apply (triple_bind (kept base r0 b)); [by apply tr_update|]. intros _.
  apply triple_ret.
Qed.

Lemma tr_worker (b : bool) :
  triple (kept base r0 b) worker (kept base r0 b) (kept base r0 b).
Proof.
  intros st H. pose proof (kept_keeps base r0 b _ _ (keeps_worker st) H) as H'.
  by destruct (worker st).
Qed.

Lemma tr_requeue (b : bool) :
  triple (kept base r0 b) (requeue r0) (kept base r0 true) (kept base r0 true).
Proof.
  unfold requeue.
  apply (triple_bind (kept base r0 true)); [|intros _; apply tr_worker].
  apply triple_modify. intros st. apply kept_push.
  intros r. cbn. by rewrite elem_of_cons.
Qed.

Lemma tr_settled (b : bool) (E : State -> Prop) (k : Awaiter) :
  triple (kept base r0 b) (settled k) (kept base r0 b) E.
Proof.
  destruct k; cbn; [apply triple_ret|]. by apply tr_await_other.
Qed.

(** Whatever [handleError] does with the request, it does not drop it. *)
Lemma tr_handleError (b : bool) (error : APIError) :
  triple (kept base r0 b) (handleError r0 error) (kept base r0 true) (kept base r0 true).
Proof.
  unfold handleError. destruct (code error =? TOO_MANY_REQUESTS)%Z.
  - apply (triple_bind (kept base r0 b)); [apply triple_get|]. intros st0.
    destruct (suspended st0); [apply tr_requeue|].
    apply (triple_bind (kept base r0 b)); [by apply tr_frame|]. intros _.
    apply tr_await_own. cbn. by apply bool_decide_eq_true.
  - apply (triple_bind (kept base r0 b));
      [apply tr_if_captcha; intros c; apply tr_captcha_reject|].
    intros _. destruct (code error =? USER_VALIDATION_REQUIRED)%Z.
    + apply (triple_bind (kept base r0 b)); [apply triple_get|]. intros st0.
      apply (triple_bind (kept base r0 b)).
      { destruct (suspended st0); unfold when; [|apply triple_ret].
        apply (triple_conseq _ _ _ _ _ _ _ (tr_requeue b)); try done.
        intros st. apply kept_weaken. }
      intros _.
      apply (triple_bind (kept base r0 b)); [by apply tr_frame|]. intros _.
      apply (triple_bind (kept base r0 b)); [by apply tr_frame|]. intros _.
      apply tr_await_own. cbn. by apply bool_decide_eq_true.
    + apply (triple_bind (kept base r0 b)); [apply triple_get|]. intros st0.
      destruct (_ || _); [apply tr_reject|].
      apply (triple_bind (kept base r0 b)); [by apply tr_frame|]. intros _.
      apply tr_await_own. cbn. by apply bool_decide_eq_true.
Qed.

Lemma tr_callMethod_fetched (k : Awaiter) (res : FetchResult) :
  triple (kept base r0 false) (callMethod_fetched r0 k res)
    (kept base r0 true) (kept base r0 true).
Proof.
  unfold callMethod_fetched.
  apply (triple_bind (kept base r0 false)); [apply tr_request|]. intros q.
  destruct res as [error|response].
  - apply (triple_bind (kept base r0 false)); [apply triple_get|]. intros st0.
    apply (triple_bind (kept base r0 false)); [apply tr_addAttempt|]. intros n.
    destruct (n <=? _)%Z.
    + apply tr_await_own. cbn. by apply bool_decide_eq_true.
    + apply (triple_bind (kept base r0 false));
        [apply tr_if_captcha; intros c; apply tr_captcha_reject|].
      intros _.
      apply (triple_bind (kept base r0 true)); [apply tr_reject|]. intros _.
      apply tr_settled.
  - destruct (resp_error response) as [e|].
    + apply (triple_bind (kept base r0 true));
        [apply triple_detach, tr_handleError|].
      intros _. apply tr_settled.
    + apply (triple_bind (kept base r0 false));
        [apply tr_if_captcha; intros c; apply tr_captcha_resolve|].
      intros _.
      destruct (startsWith _ _);
        (apply (triple_bind (kept base r0 true)); [apply tr_resolve|]);
        intros _; apply tr_settled.
Qed.

Lemma tr_handleError_catch (b : bool) (E : State -> Prop) (error : APIError) :
  triple (kept base r0 b) (handleError_catch r0 error) (kept base r0 true) E.
Proof.
  unfold handleError_catch.
  apply (triple_bind (kept base r0 true)); [apply tr_reject|]. intros _.
  by apply tr_await_other.
Qed.

Lemma tr_resume (t : Task) (input : Input) (m : M unit) :
  mentions r0 t = true ->
  resume t input = Some m ->
  triple (kept base r0 false) m (kept base r0 true) (kept base r0 true).
Proof.
  destruct t as [r k|r ms k|r ms|r error|ms|r sid|h interval]; cbn;
    try done; intros Hr%bool_decide_eq_true; subst r; destruct input;
    intros [= <-].
  - apply tr_callMethod_fetched.
  - unfold callMethod_restart.
    apply (triple_bind (kept base r0 true)); [apply tr_requeue|]. intros _.
    apply tr_settled.
  - unfold handleError_backoff.
    apply (triple_bind (kept base r0 false)); [by apply tr_frame|]. intros _.
    apply tr_requeue.
  - destruct res as [new_token|e]; cbn [handleError_verification];
      [|apply tr_handleError_catch].
    apply (triple_try_catch (kept base r0 true));
      [|intros _; apply tr_handleError_catch].
    apply (triple_bind (kept base r0 false)); [by apply tr_frame|]. intros _.
    apply (triple_bind (kept base r0 false)); [by apply tr_frame|]. intros _.
    apply tr_requeue.
  - unfold handleError_retry.
    apply (triple_bind (kept base r0 false)); [apply triple_get|]. intros st0.
    apply (triple_bind (kept base r0 false)); [by apply tr_frame|]. intros _.
    apply (triple_try_catch (kept base r0 true));
      [|intros e; apply tr_captcha_reject].
    destruct ans as [key|e].
    + apply (triple_bind (kept base r0 false)); [apply tr_request|]. intros q.
      apply (triple_bind (kept base r0 false)); [by apply tr_update|]. intros _.
      apply (triple_bind (kept base r0 false)); [by apply tr_update|]. intros _.
      apply (triple_bind (kept base r0 false)); [by apply tr_update|]. intros _.
      apply tr_requeue.
    + apply (triple_bind (kept base r0 true)); [apply tr_reject|]. intros _.
      apply tr_captcha_reject.
Qed.

End Held.

Section Base.

Variable base : string.

Lemma conserved_resume (r : ReqId) (t : Task) (input : Input) (m : M unit) :
  mentions r t = true ->
  resume t input = Some m ->
  hoare (kept base r false) m (conserved base).
Proof.
  intros Hm Hres st H.
  apply (kept_conserved base r).
  by apply (triple_hoare _ _ _ (tr_resume base r t input m Hm Hres)).
Qed.

Lemma conserved_resume_other (t : Task) (input : Input) (m : M unit) :
  (forall r, mentions r t = false) ->
  resume t input = Some m ->
  hoare (conserved base) m (conserved base).
Proof.
  intros Hm Hres st H.
  destruct t as [r k|r ms k|r ms|r error|ms|r sid|h interval];
    try (specialize (Hm r); cbn in Hm;
         by rewrite bool_decide_eq_true_2 in Hm);
    destruct input; cbn in Hres; try done; injection Hres as <-.
  - unfold handleError_cooldown. exec.
    apply (conserved_keeps base (with_suspended false st));
      [apply keeps_worker|].
    apply (conserved_keeps base st); [by apply keeps_frame | done].
  - by apply (conserved_keeps base st); [apply keeps_work|].
Qed.

(** A new request whose URL can be built. *)
Lemma kept_alloc (q : Request) (st : State) :
  valid_URL (method q) base = true ->
  conserved base st ->
  kept base (length (requests st)) false
    (with_requests (requests st ++ [q]) st).
Proof.
  intros Hv ((H1 & H2 & H3 & H4) & Hacc).
  split; [|split]; cbn.
  - split; [|split; [|split]]; cbn.
    + eapply Forall_impl; [exact H1|]. cbn. intros r Hr.
      rewrite length_app. lia.
    + eapply Forall_impl; [exact H2|]. cbn. intros t Ht r Hr.
      rewrite length_app. specialize (Ht r Hr). lia.
    + done.
    + apply Forall_app. split; [done|]. by constructor.
  - rewrite length_app. cbn. lia.
  - intros r Hlt Hne. rewrite length_app in Hlt. cbn in Hlt.
    assert (Hr : r < length (requests st)).
    { destruct (decide (r = length (requests st))) as [E|E]; [|lia].
      by specialize (Hne E). }
    destruct (Hacc r Hr) as [H|[H|H]];
      [by left|by right; left|right; right].
    unfold answered, result in *. cbn. by rewrite lookup_app_l.
Qed.

Lemma conserved_enqueue (method : string) (params : gmap string string) :
  valid_URL method base = true ->
  hoare (conserved base) (enqueue method params) (conserved base).
Proof.
  intros Hv st H.
  assert (E : final (enqueue method params st)
              = final (worker
                  (with_queue (queue st ++ [length (requests st)])
                     (with_requests
                        (requests st
                         ++ [mkRequest method params 0 Pending None])
                        st)))).
  { unfold enqueue, new_Request, callWithRequest. exec.
    by destruct (worker _). }
  rewrite E. eapply conserved_keeps; [apply keeps_worker|].
  apply (kept_conserved base (length (requests st))).
  apply (kept_push base _ false); [|by apply kept_alloc].
  intros r. cbn. rewrite elem_of_app, list_elem_of_singleton. tauto.
Qed.

Lemma mentions_cases (t : Task) :
  (exists r, mentions r t = true) \/ (forall r, mentions r t = false).
Proof.
  destruct t as [r k|r ms k|r ms|r error|ms|r sid|h interval]; cbn;
    try (by right); left; exists r; by apply bool_decide_eq_true.
Qed.

Lemma conserved_step (ev : Event) (st st' : State) :
  resolvable base [ev] ->
  step ev st = Some st' -> conserved base st -> conserved base st'.
Proof.
  intros Hev%Forall_inv. destruct ev as [method params|i input]; cbn.
  - intros [= <-]. by apply conserved_enqueue.
  - destruct (tasks st !! i) as [t|] eqn:Ht; [|done]. cbn.
    destruct (resume t input) as [m|] eqn:Hm; [|done]. cbn.
    intros [= <-] H. destruct (mentions_cases t) as [[r Hr]|Hnone].
    + apply (conserved_resume r t input m Hr Hm).
      by apply (kept_delete base r i t).
    + apply (conserved_resume_other t input m Hnone Hm).
      by apply (conserved_delete base i t).
Qed.

Lemma conserved_run (evs : list Event) (st st' : State) :
  resolvable base evs ->
  run evs st = Some st' -> conserved base st -> conserved base st'.
Proof.
  revert st. induction evs as [|ev evs IH]; intros st Hevs; cbn.
  - by intros [= <-].
  - apply Forall_cons in Hevs as [Hev Hevs].
    destruct (step ev st) as [st1|] eqn:Hstep; [|done]. cbn.
    intros Hrun Hst. apply (IH _ Hevs Hrun).
    apply (conserved_step ev st); [by constructor|done..].
Qed.

End Base.


End Conserved.

(** ** The policies of the spec keep both invariants *)

Lemma backed_grow (st st' : State) (l : list Task) :
  suspended st' = suspended st -> tasks st' = tasks st ++ l ->
  backed st -> backed st'.
Proof.
  unfold backed. intros -> -> H Hs. apply Exists_app. left. by apply H.
Qed.

Lemma spec_workers_backed {constants : Constants} {node_url : NodeUrl}
    (partition : Request -> string) (h : Handler) (interval : Z) :
  hoare backed (invoke (Workers := spec_workers partition) h interval) backed.
Proof.
  intros st Hst.
  assert (Hcall : forall r k rest,
            backed (final (callMethod r k (with_queue rest st)))).
  { intros r k rest.
    destruct (callMethod_outcome r k (with_queue rest st))
      as [(url & body & timeout & ->)|(e & ->)]; cbn.
    - by apply (backed_grow st _ [AwaitFetch r k]).
    - by apply (backed_grow st _ []); [|cbn; rewrite app_nil_r|]. }
  assert (Htick : forall t st1,
            backed st1 -> backed (with_tasks (tasks st1 ++ [t]) st1)).
  { intros t st1. by apply (backed_grow st1 _ [t]). }
  destruct h as [| | |name]; cbn.
  - unfold sequential_policy, shift, detach. exec.
    destruct (queue st) as [|r rest] eqn:Hq; cbn; [exact Hst|].
    apply Hcall.
  - unfold parallel_policy, shift, detach. exec.
    destruct (queue st) as [|r rest] eqn:Hq; cbn; [exact Hst|].
    apply Htick, Hcall.
  - unfold parallelSelected_policy, request. exec.
    destruct (queue st) as [|r rest] eqn:Hq; cbn; [exact Hst|].
    destruct (requests st !! r) as [q|]; cbn; [|exact Hst].
    case_bool_decide; exec.
    + by apply Htick.
    + apply Htick, Hcall.
  - unfold inherited_call. case_bool_decide; exact Hst.
Qed.

Lemma keeps_tick {node_url : NodeUrl} (t : Task) (st : State) :
  (forall r, mentions r t = false) ->
  keeps st (with_tasks (tasks st ++ [t]) st).
Proof.
  intros Ht base (H1 & H2 & H3). split; [|split; [done|]].
  - split; [done|]. split; [|done]. cbn. apply Forall_app. split; [done|].
    constructor; [|done]. intros r. by rewrite Ht.
  - intros r [H|[H|H]]; [by left| |by right; right].
    right. left. cbn. apply Exists_app. by left.
Qed.

(** A request that a policy takes from the queue is held by the call of
    the transport, when its URL can be built. *)
Lemma keeps_dispatch {constants : Constants} {node_url : NodeUrl}
    (r : ReqId) (k : Awaiter) (rest : list ReqId) (st : State) :
  queue st = r :: rest ->
  keeps st (final (callMethod r k (with_queue rest st))).
Proof.
  intros Hq base (H1 & H2 & H3 & H4). rewrite Hq in H1.
  apply Forall_cons in H1 as [Hr H1].
  destruct (lookup_lt_is_Some_2 _ _ Hr) as [q Hq'].
  pose proof (proj1 (Forall_lookup _ _) H4 r q Hq') as Hv. cbn in Hv.
  rewrite (callMethod_found r k q) by (cbn; by rewrite ?H3). cbn.
  split; [|split; [done|]].
  - split; [done|]. split; [|done]. cbn. apply Forall_app. split; [done|].
    constructor; [|done]. cbn. by intros r' ->%bool_decide_eq_true.
  - intros r' [H|[H|H]]; [|by right; left; cbn; apply Exists_app; left
                           |by right; right].
    rewrite Hq in H. apply elem_of_cons in H as [->|H]; [|by left].
    right. left. cbn. apply Exists_app. right. constructor. cbn.
    by apply bool_decide_eq_true.
Qed.

Lemma spec_workers_keeps {constants : Constants} {node_url : NodeUrl}
    (partition : Request -> string) (h : Handler) (interval : Z)
    (st : State) :
  keeps st (final (invoke (Workers := spec_workers partition) h interval st)).
Proof.
  destruct h as [| | |name]; cbn.
  - unfold sequential_policy, shift, detach. exec.
    destruct (queue st) as [|r rest] eqn:Hq; cbn; [apply keeps_refl|].
    by apply keeps_dispatch.
  - unfold parallel_policy, shift, detach. exec.
    destruct (queue st) as [|r rest] eqn:Hq; cbn; [apply keeps_refl|].
    eapply keeps_trans; [by apply (keeps_dispatch r Detached rest)|].
    by apply keeps_tick.
  - unfold parallelSelected_policy, request. exec.
    destruct (queue st) as [|r rest] eqn:Hq; cbn; [apply keeps_refl|].
    destruct (requests st !! r) as [q|]; cbn; [|apply keeps_refl].
    case_bool_decide; exec.
    + by apply keeps_tick.
    + eapply keeps_trans; [by apply (keeps_dispatch r Detached rest)|].
      by apply keeps_tick.
  - unfold inherited_call. case_bool_decide; apply keeps_refl.
Qed.

(** Under the policy Parallel of the spec, a request whose URL cannot be
    built leaves the queue and is held by nothing: its result stays as it
    was and no call of the transport is made for it. *)
Lemma unresolvable_request_is_dropped
    {constants : Constants} {node_url : NodeUrl}
    (partition : Request -> string) (r : ReqId) (rest : list ReqId)
    (q : Request) (interval : Z) (st : State) :
  queue st = r :: rest ->
  requests st !! r = Some q ->
  valid_URL (method q) (baseUrl st) = false ->
  final (invoke (Workers := spec_workers partition) parallel interval st)
  = with_tasks (tasks st ++ [Timeout parallel interval])
      (with_queue rest st).
Proof.
  intros Hq Hr Hv. cbn. unfold parallel_policy, shift, detach. exec.
  rewrite Hq. cbn.
  by rewrite (callMethod_invalid r Detached q (with_queue rest st)).
Qed.

(** ** The properties above on the sample clients *)

Lemma callMethod_request_body_witness :
  requests (sample_idle false) !! 0 = Some sample_request /\
  (exists body : gmap string string,
     @callMethod sample_constants sample_node_url 0 Detached
       (sample_idle false)
     = Returns tt
         (with_tasks (tasks (sample_idle false) ++ [AwaitFetch 0 Detached])
            (with_trace
               (trace (sample_idle false)
                ++ [Fetch 0 (mkURL "users.get" "https://api.vk.com/method/")
                      body 10000])
               (sample_idle false))) /\
     body !! "access_token" = Some "t0" /\
     body !! "v" = Some "5.85" /\
     body !! "lang" = None) /\
  @callMethod sample_constants sample_node_url 0 Detached
    (with_baseUrl "/" (sample_idle false))
  = Throws (TypeError "Invalid URL") (with_baseUrl "/" (sample_idle false)).
Proof.
  split; [reflexivity|]. split.
  - destruct (callMethod_request_body
                (constants := sample_constants) (node_url := sample_node_url)
                0 Detached sample_request (sample_idle false) eq_refl)
      as (body & H1 & H2 & H3 & H4 & _).
    exists body. split; [exact H1|]. split; [exact H2|]. split; [exact H3|].
    exact H4.
  - exact (callMethod_request_body
             (constants := sample_constants) (node_url := sample_node_url)
             0 Detached sample_request (with_baseUrl "/" (sample_idle false))
             eq_refl).
Defined.

Lemma callMethod_after_set_baseUrl_witness :
  requests (sample_idle false) !! 0 = Some sample_request /\
  (exists (body : gmap string string) (timeout : Z),
     last (trace (final (@callMethod sample_constants sample_node_url
                           0 Detached
                           (final (set_baseUrl "https://vk.test/api"
                                     (sample_idle false))))))
     = Some (Fetch 0 (mkURL "users.get" "https://vk.test/api/")
               body timeout)) /\
  baseUrl (final (set_baseUrl "" (sample_idle false))) = "/" /\
  @callMethod sample_constants sample_node_url 0 Detached
    (final (set_baseUrl "" (sample_idle false)))
  = Throws (TypeError "Invalid URL")
      (final (set_baseUrl "" (sample_idle false))).
Proof.
  pose proof (callMethod_after_set_baseUrl
                (constants := sample_constants) (node_url := sample_node_url)
                "https://vk.test/api" 0 Detached sample_request
                (sample_idle false) eq_refl) as H.
  pose proof (callMethod_after_set_baseUrl
                (constants := sample_constants) (node_url := sample_node_url)
                "" 0 Detached sample_request
                (sample_idle false) eq_refl) as H'.
  cbn zeta in H, H'.
  destruct H as (_ & _ & H3). destruct H' as (_ & H2' & H3').
  split; [reflexivity|]. split; [exact H3|]. split; [exact H2'|].
  exact (proj1 H3').
Defined.

Lemma callMethod_plain_result_witness :
  requests sample_challenged !! 0
  = Some (with_captcha (Some 0) sample_request) /\
  startsWith "users.get" "execute" = false /\
  result 0
    (final (@callMethod_fetched sample_constants sample_workers 0 Detached
              (FetchReturned (mkResponse None (Some (JNum 7)) None))
              sample_challenged))
  = Some (Resolved (VPayload (JNum 7))) /\
  challenge 0
    (final (@callMethod_fetched sample_constants sample_workers 0 Detached
              (FetchReturned (mkResponse None (Some (JNum 7)) None))
              sample_challenged))
  = Some (Resolved VUndefined).
Proof.
  pose proof (callMethod_plain_result
                (constants := sample_constants) (workers := sample_workers)
                0 Detached (mkResponse None (Some (JNum 7)) None)
                (with_captcha (Some 0) sample_request) sample_challenged
                eq_refl eq_refl eq_refl) as (_ & H2 & H3 & _).
  split; [reflexivity|]. split; [reflexivity|].
  unfold result, challenge. rewrite H2. cbn. rewrite H3.
  split; reflexivity.
Defined.

Lemma callMethod_application_error_witness :
  requests sample_challenged !! 0
  = Some (with_captcha (Some 0) sample_request) /\
  result 0
    (final (@callMethod_fetched sample_constants sample_workers 0 Detached
              (FetchReturned
                 (mkResponse
                    (Some (mkAPIError 5 "User authorization failed"
                             "" "" ""))
                    None None))
              sample_challenged))
  = Some (Rejected
            (ApiError (mkAPIError 5 "User authorization failed" "" "" ""))) /\
  queue
    (final (@callMethod_fetched sample_constants sample_workers 0 Detached
              (FetchReturned
                 (mkResponse
                    (Some (mkAPIError 5 "User authorization failed"
                             "" "" ""))
                    None None))
              sample_challenged))
  = [].
Proof.
  pose proof (callMethod_application_error
                (constants := sample_constants) (workers := sample_workers)
                0 Detached
                (mkResponse
                   (Some (mkAPIError 5 "User authorization failed" "" "" ""))
                   None None)
                (mkAPIError 5 "User authorization failed" "" "" "")
                (with_captcha (Some 0) sample_request) sample_challenged
                eq_refl eq_refl) as H.
  cbn zeta in H.
  destruct H as (_ & H2 & _ & _ & H5 & _); [by vm_compute..|].
  split; [reflexivity|]. unfold result. rewrite H2, H5.
  split; reflexivity.
Defined.

Lemma handleError_verification_success_witness :
  started sample_suspended = true /\
  @handleError_verification sample_constants sample_workers 0
    validation_required (Verified "t1") sample_suspended
  = Returns tt
      (with_queue [0]
         (with_suspended false
            (with_vk (setToken "t1" (vk sample_suspended))
               sample_suspended))) /\
  started sample_stalled_idle = false /\
  result 0
    (final (@handleError_verification sample_constants sample_workers 0
              validation_required (Verified "t1") sample_stalled_idle))
  = Some (Rejected (ApiError validation_required)).
Proof.
  pose proof (handleError_verification_success
                (constants := sample_constants) (workers := sample_workers)
                0 validation_required "t1" sample_suspended) as H.
  pose proof (handleError_verification_success
                (constants := sample_constants) (workers := sample_workers)
                0 validation_required "t1" sample_stalled_idle) as H'.
  cbn zeta in H, H'. destruct H as (H1 & _). destruct H' as (_ & _ & H3).
  split; [reflexivity|]. split; [exact (H1 eq_refl)|].
  split; [reflexivity|].
  rewrite (H3 eq_refl eq_refl). reflexivity.
Defined.

Lemma handleError_retry_error_witness :
  requests (sample_in_flight true) !! 0 = Some sample_request /\
  result 0
    (final (@handleError_retry sample_constants sample_workers 0 "584"
              (KeyIsError (FetchError "closed")) (sample_in_flight true)))
  = Some (Rejected (FetchError "closed")) /\
  queue
    (final (@handleError_retry sample_constants sample_workers 0 "584"
              (KeyIsError (FetchError "closed")) (sample_in_flight true)))
  = [].
Proof.
  pose proof (handleError_retry_error
                (constants := sample_constants) (workers := sample_workers)
                0 "584" (FetchError "closed") sample_request
                (sample_in_flight true) eq_refl) as H.
  cbn zeta in H. destruct H as (_ & H2 & _ & _ & H5 & _).
  split; [reflexivity|]. unfold result. rewrite H2, H5.
  split; reflexivity.
Defined.

Lemma enqueue_only_queues_witness :
  (started sample_suspended = true \/ suspended sample_suspended = true) /\
  queue (final (@enqueue sample_constants sample_workers "wall.get" ∅
                  sample_suspended))
  = [1] /\
  trace (final (@enqueue sample_constants sample_workers "wall.get" ∅
                  sample_suspended))
  = trace sample_suspended.
Proof.
  pose proof (enqueue_only_queues
                (constants := sample_constants) (workers := sample_workers)
                "wall.get" ∅ sample_suspended (or_intror eq_refl)) as H.
  cbn zeta in H. destruct H as (_ & _ & H3 & _ & H5 & _).
  split; [right; reflexivity|]. split; [exact H3|exact H5].
Defined.

Lemma procedure_resolves_as_execute_witness :
  result 0
    (final (@callMethod_fetched sample_constants sample_workers 0 Detached
              (FetchReturned (mkResponse None (Some (JNum 1)) None))
              (with_requests
                 [mkRequest "execute.getFriends" ∅ 0 Pending None]
                 (sample_in_flight false))))
  = Some (Resolved (VExecute (Some (JNum 1)) [])).
Proof.
  pose proof (procedure_resolves_as_execute
                (constants := sample_constants) (workers := sample_workers)
                "getFriends" ∅ Detached
                (mkResponse None (Some (JNum 1)) None)
                (mkRequest "execute.getFriends" ∅ 0 Pending None)
                (sample_client (Some "parallel") false)
                (with_requests
                   [mkRequest "execute.getFriends" ∅ 0 Pending None]
                   (sample_in_flight false))) as H.
  cbn zeta in H. destruct H as [_ H].
  exact (H eq_refl eq_refl eq_refl).
Defined.

Lemma worker_interval_witness :
  started sample_requeued = false /\
  queue sample_requeued <> [] /\
  suspended sample_requeued = false /\
  exists interval : Z,
    @worker sample_constants sample_workers sample_requeued
    = invoke (Workers := sample_workers) parallel interval
        (with_started true sample_requeued) /\
    (2 * interval * 3 <= 2 * 1133 + 3 < 2 * (interval + 1) * 3)%Z.
Proof.
  split; [reflexivity|]. split; [discriminate|]. split; [reflexivity|].
  exact (worker_interval
           (constants := sample_constants) (workers := sample_workers)
           parallel sample_requeued eq_refl
           (fun H : queue sample_requeued = [] =>
              eq_ind [0] (fun l => match l with [] => False | _ => True end)
                I [] H)
           eq_refl eq_refl eq_refl).
Defined.

Lemma messages_send_random_id_witness :
  exists sent : gmap string string,
    @messages_send sample_constants sample_workers "42"
      (Some {[ "peer_id" := "1" ]})
    = @enqueue sample_constants sample_workers "messages.send" sent /\
    sent !! "random_id" = Some "42" /\
    sent !! "peer_id" = Some "1".
Proof.
  destruct (messages_send_random_id
              (constants := sample_constants) (workers := sample_workers)
              "42" (Some {[ "peer_id" := "1" ]}))
    as (sent & H1 & H2 & H3).
  exists sent. split; [exact H1|]. split; [exact H2|].
  exact (H3 "peer_id" ltac:(discriminate)).
Defined.

Lemma stalled_client_never_dispatches_witness :
  started sample_stalled = true /\
  tasks sample_stalled = [] /\
  @run sample_constants sample_workers
    [Enqueue "friends.get" ∅; Enqueue "wall.get" ∅] sample_stalled
  = Some sample_stalled_later /\
  trace sample_stalled_later = trace sample_stalled /\
  queue sample_stalled_later = [0; 1; 2] /\
  result 2 sample_stalled_later = Some Pending.
Proof.
  pose proof (stalled_client_never_dispatches
                (constants := sample_constants) (workers := sample_workers)
                [Enqueue "friends.get" ∅; Enqueue "wall.get" ∅]
                sample_stalled sample_stalled_later eq_refl eq_refl eq_refl)
    as (_ & _ & H3 & H4 & _ & _ & H7).
  split; [reflexivity|]. split; [reflexivity|]. split; [reflexivity|].
  split; [exact H3|]. split; [exact H4|].
  apply (H7 2); cbn; lia.
Defined.

Lemma suspension_always_ends_witness :
  (forall (h : Handler) (interval : Z),
     hoare backed (invoke (Workers := sample_workers) h interval) backed) /\
  @run sample_constants sample_workers
    [Enqueue "users.get" ∅; Resume 0 (failed too_many_requests)]
    (@constructor sample_constants (sample_vk (Some "parallel") false))
  = Some sample_suspended /\
  suspended sample_suspended = true /\
  Exists (fun t => recovers t = true) (tasks sample_suspended).
Proof.
  pose proof (spec_workers_backed (constants := sample_constants)
                (node_url := sample_node_url)
                (fun q => default "" (params q !! "peer_id"))) as Hinvoke.
  split; [exact Hinvoke|]. split; [reflexivity|]. split; [reflexivity|].
  exact (suspension_always_ends
           (constants := sample_constants) (workers := sample_workers)
           Hinvoke (sample_vk (Some "parallel") false)
           [Enqueue "users.get" ∅; Resume 0 (failed too_many_requests)]
           sample_suspended eq_refl eq_refl).
Defined.


(** ** The invariants under the policies of the spec *)

Section Spec_invariants.

Context {constants : Constants} {node_url : NodeUrl}.

Variable partition : Request -> string.

Lemma spec_backed_forever (evs : list Event) (st st' : State) :
  backed st ->
  run (workers := spec_workers partition) evs st = Some st' ->
  backed st'.
Proof.
  intros Hst Hrun.
  exact (bk_run (workers := spec_workers partition)
           (spec_workers_backed partition) evs _ _ Hrun Hst).
Qed.

Lemma spec_conserved_forever
    (base : string) (evs : list Event) (st st' : State) :
  resolvable base evs ->
  conserved base st ->
  run (workers := spec_workers partition) evs st = Some st' ->
  conserved base st'.
Proof.
  intros Hevs Hst Hrun.
  exact (conserved_run (workers := spec_workers partition)
           (spec_workers_keeps partition) base evs _ _ Hevs Hrun Hst).
Qed.

End Spec_invariants.
